(** * Aqua Voice: the transcript-to-keystroke reconciler and the session
      controller of [aqua_voice.py] and [aqua_voice_app.py]

    A shallow embedding of the two entry points of the repository:

    - [AquaVoice]     (src/aqua_voice.py): live typing, interim results on;
    - [AquaVoiceApp]  (src/aqua_voice_app.py): menu-bar app, final results
      only, transcripts handed to a consumer thread through a queue.

    Python objects become records, a method becomes a function from the
    object's state to its next state, and every call that leaves the
    process (keyboard controller, pbcopy, Deepgram websocket, PyAudio,
    thread creation) is appended to an effect trace carried in the state.
    The answers of the outside world (does [connection.start] return True,
    does [audio.open] raise, ...) are read from an environment record.

    Modelling assumptions, fixed here once:
    - a Python [str] is a [string]; one [ascii] stands for one character
      (a code point below 256), so [len] is [String.length];
    - the keyboard controller and [pbcopy] do not raise;
    - [time.sleep], [print], logging and the menu-bar title are left out;
    - the methods are run one after the other (the [with self.lock] guard is
      the atomic test-and-set at the head of each method). *)

From Stdlib Require Import String Ascii List Arith Bool Lia.
Import ListNotations.
Open Scope string_scope.
Open Scope nat_scope.
Open Scope list_scope.

(** ** Python string operations used by the source *)

(** Truth value of a [str] / of a list: non-empty. *)
Definition truthy (s : string) : bool :=
  match s with
  | EmptyString => false
  | String _ _ => true
  end.

(** [s[:-n]].  For [n = 0] Python reads the stop index [-0] as [0]. *)
Definition slice_to_neg (n : nat) (s : string) : string :=
  match n with
  | 0 => ""
  | S _ => substring 0 (String.length s - n) s
  end.

(** [str.isspace] on one character, for code points below 256. *)
Definition isspace (c : ascii) : bool :=
  let n := nat_of_ascii c in
  ((9 <=? n) && (n <=? 13)) || ((28 <=? n) && (n <=? 32))
  || (n =? 133) || (n =? 160).

Fixpoint lstrip (s : string) : string :=
  match s with
  | EmptyString => EmptyString
  | String c r => if isspace c then lstrip r else s
  end.

Fixpoint rstrip (s : string) : string :=
  match s with
  | EmptyString => EmptyString
  | String c r =>
      match rstrip r with
      | EmptyString => if isspace c then EmptyString else String c EmptyString
      | r' => String c r'
      end
  end.

(** [s.strip()] *)
Definition strip (s : string) : string := rstrip (lstrip s).

(** [sep.join(parts)] *)
Definition join (sep : string) (parts : list string) : string :=
  String.concat sep parts.

(** ** Effects on the outside world *)

Inductive Key := backspace.

Inductive thread_target := capture_audio | process_transcript_queue.

Inductive effect :=
| WsCreate (c : nat)                     (* deepgram.listen.websocket.v("1") *)
| WsStart (c : nat) (opened : bool)      (* connection.start(options)        *)
| WsFinish (c : nat) (ok : bool)         (* connection.finish()              *)
| PyAudioNew (a : nat)                   (* pyaudio.PyAudio()                *)
| StreamOpen (a st : nat)                (* audio.open(...)                  *)
| StreamStop (st : nat) (ok : bool)      (* stream.stop_stream()             *)
| StreamClose (st : nat) (ok : bool)     (* stream.close()                   *)
| AudioTerminate (a : nat) (ok : bool)   (* audio.terminate()                *)
| ThreadStart (t : nat) (f : thread_target)
| ThreadExit (t : nat)
| KbPress (k : Key)
| KbRelease (k : Key)
| KbType (s : string)
| Pbcopy (s : string).                   (* copy_to_clipboard(text)          *)

(** The body of
    [for _ in range(n): kb.press(backspace); kb.release(backspace); sleep] *)
Fixpoint press_backspaces (n : nat) : list effect :=
  match n with
  | 0 => []
  | S n' => KbPress backspace :: KbRelease backspace :: press_backspaces n'
  end.

(** What the outside world answers during [start_recording]. *)
Record StartEnv := {
  websocket_v_ok : bool;              (* false: raises            *)
  connection_start : option bool;     (* None: raises             *)
  PyAudio_ok : bool;                  (* false: raises            *)
  audio_open_ok : bool;               (* false: raises            *)
  thread_start_ok : bool              (* false: raises            *)
}.

(** What the outside world answers during teardown; every one of these
    calls sits in a [try: ... except: pass]. *)
Record StopEnv := {
  finish_ok : bool;
  stop_stream_ok : bool;
  close_ok : bool;
  terminate_ok : bool
}.

Definition all_ok : StartEnv :=
  {| websocket_v_ok := true; connection_start := Some true;
     PyAudio_ok := true; audio_open_ok := true; thread_start_ok := true |}.

Definition clean_stop : StopEnv :=
  {| finish_ok := true; stop_stream_ok := true; close_ok := true;
     terminate_ok := true |}.

(** The connection opens, then [audio.open] raises. *)
Definition audio_open_fails : StartEnv :=
  {| websocket_v_ok := true; connection_start := Some true;
     PyAudio_ok := true; audio_open_ok := false; thread_start_ok := true |}.

(** [connection.start(options)] returns False. *)
Definition connection_refused : StartEnv :=
  {| websocket_v_ok := true; connection_start := Some false;
     PyAudio_ok := true; audio_open_ok := true; thread_start_ok := true |}.

(** ** The payload handed to the transcript callback *)

Record Alternative := { transcript : string }.
Record Channel := { alternatives : option (list Alternative) }.
Record Result := { channel : option Channel; is_final : option bool }.

(** The transcript event of the data model and the payload that carries it. *)
Record TranscriptEvent := { text : string; final : bool }.

Definition payload (e : TranscriptEvent) : option Result :=
  Some {| channel :=
            Some {| alternatives := Some [ {| transcript := text e |} ] |};
          is_final := Some (final e) |}.

Definition interim_event (s : string) : TranscriptEvent :=
  {| text := s; final := false |}.
Definition final_event (s : string) : TranscriptEvent :=
  {| text := s; final := true |}.

(** ** Reading a trace *)

(** The edit operations of the Text Injector, as the specification counts
    them: an insert of a text, a delete of [n] characters. *)
Inductive edit := Insert (s : string) | Delete (n : nat).

(** Group a trace into edit operations: a run of backspace presses is one
    delete. *)
Fixpoint edits (tr : list effect) : list edit :=
  match tr with
  | [] => []
  | KbType s :: tr' => Insert s :: edits tr'
  | KbPress backspace :: tr' =>
      match edits tr' with
      | Delete n :: es => Delete (S n) :: es
      | es => Delete 1 :: es
      end
  | _ :: tr' => edits tr'
  end.

(** Remove the last character of a text (what one backspace does). *)
Fixpoint chop (s : string) : string :=
  match s with
  | EmptyString => EmptyString
  | String c EmptyString => EmptyString
  | String c r => String c (chop r)
  end.

(** The text a trace leaves at the cursor, starting from nothing typed:
    the net result of all inserts and deletes issued so far. *)
Definition net_typed (tr : list effect) : string :=
  fold_left
    (fun doc e =>
       match e with
       | KbType s => (doc ++ s)%string
       | KbPress backspace => chop doc
       | _ => doc
       end) tr "".


Definition clipboard_writes (tr : list effect) : list string :=
  flat_map (fun e => match e with Pbcopy s => [s] | _ => [] end) tr.


Definition keyboard_calls (tr : list effect) : list effect :=
  filter (fun e => match e with
                   | KbPress _ | KbRelease _ | KbType _ => true
                   | _ => false
                   end) tr.

Definition remove_id (x : nat) (l : list nat) : list nat :=
  filter (fun y => negb (x =? y)) l.

(** Connections started and not yet finished (a [finish] that raised
    closes nothing; the same for streams and PyAudio instances). *)
Definition open_connections (tr : list effect) : list nat :=
  fold_left
    (fun live e =>
       match e with
       | WsStart c true => live ++ [c]
       | WsFinish c true => remove_id c live
       | _ => live
       end) tr [].

(** PyAudio instances created and not yet terminated. *)
Definition open_audio (tr : list effect) : list nat :=
  fold_left
    (fun live e =>
       match e with
       | PyAudioNew a => live ++ [a]
       | AudioTerminate a true => remove_id a live
       | _ => live
       end) tr [].

(** Input streams opened and not yet closed. *)
Definition open_streams (tr : list effect) : list nat :=
  fold_left
    (fun live e =>
       match e with
       | StreamOpen _ st => live ++ [st]
       | StreamClose st true => remove_id st live
       | _ => live
       end) tr [].

(** Threads of a given target started and not yet exited. *)
Definition running_threads (f : thread_target) (tr : list effect) : list nat :=
  fold_left
    (fun live e =>
       match e with
       | ThreadStart t g =>
           match f, g with
           | capture_audio, capture_audio
           | process_transcript_queue, process_transcript_queue => live ++ [t]
           | _, _ => live
           end
       | ThreadExit t => remove_id t live
       | _ => live
       end) tr [].

(** ** The outside world and the exception monad of the [try] blocks *)

Record World := { trace : list effect; next_handle : nat }.

Definition new_world : World := {| trace := []; next_handle := 0 |}.

Definition emit_w (es : list effect) (w : World) : World :=
  {| trace := trace w ++ es; next_handle := next_handle w |}.

Definition alloc_w (w : World) : nat * World :=
  (next_handle w, {| trace := trace w; next_handle := S (next_handle w) |}).

(** A computation over a state [St] that either returns a value or raises;
    the state reached so far is kept in both cases, as Python keeps the
    attributes assigned before an exception. *)
Definition M (St A : Type) : Type := St -> option A * St.

Definition ret {St A} (a : A) : M St A := fun s => (Some a, s).

Definition bind {St A B} (m : M St A) (k : A -> M St B) : M St B :=
  fun s =>
    match m s with
    | (Some a, s') => k a s'
    | (None, s') => (None, s')
    end.

Definition raise {St A} : M St A := fun s => (None, s).

Definition modify {St} (f : St -> St) : M St unit := fun s => (Some tt, f s).

(** [try: body  except Exception: handler] *)
Definition try_except {St} (body handler : M St unit) : M St unit :=
  fun s =>
    match body s with
    | (Some _, s') => (Some tt, s')
    | (None, s') => handler s'
    end.

Definition run {St} (m : M St unit) (s : St) : St := snd (m s).

Declare Scope py_scope.
Delimit Scope py_scope with py.
Notation "x <- m ;; k" := (bind m (fun x => k))
  (at level 61, m at next level, right associativity) : py_scope.
Notation "m ;; k" := (bind m (fun _ => k))
  (at level 61, right associativity) : py_scope.

(** ** src/aqua_voice.py : class AquaVoice *)

Module AquaVoice.

(** The attributes of [self] that the session methods read or write
    (the double-tap bookkeeping [last_option_tap], [option_tap_count]
    belongs to the hotkey listener and is left out), and the world. *)
Record State := {
  connection : option nat;
  recording : bool;
  audio : option nat;
  stream : option nat;
  audio_thread : option nat;
  final_text : list string;
  last_interim : string;
  all_typed : string;
  world : World
}.

(** [AquaVoice.__init__] *)
Definition init : State :=
  {| connection := None; recording := false; audio := None; stream := None;
     audio_thread := None; final_text := []; last_interim := "";
     all_typed := ""; world := new_world |}.

Definition set_connection (v : option nat) (s : State) : State :=
  {| connection := v; recording := recording s; audio := audio s;
     stream := stream s; audio_thread := audio_thread s;
     final_text := final_text s; last_interim := last_interim s;
     all_typed := all_typed s; world := world s |}.

Definition set_recording (v : bool) (s : State) : State :=
  {| connection := connection s; recording := v; audio := audio s;
     stream := stream s; audio_thread := audio_thread s;
     final_text := final_text s; last_interim := last_interim s;
     all_typed := all_typed s; world := world s |}.

Definition set_audio (v : option nat) (s : State) : State :=
  {| connection := connection s; recording := recording s; audio := v;
     stream := stream s; audio_thread := audio_thread s;
     final_text := final_text s; last_interim := last_interim s;
     all_typed := all_typed s; world := world s |}.

Definition set_stream (v : option nat) (s : State) : State :=
  {| connection := connection s; recording := recording s; audio := audio s;
     stream := v; audio_thread := audio_thread s;
     final_text := final_text s; last_interim := last_interim s;
     all_typed := all_typed s; world := world s |}.

Definition set_audio_thread (v : option nat) (s : State) : State :=
  {| connection := connection s; recording := recording s; audio := audio s;
     stream := stream s; audio_thread := v;
     final_text := final_text s; last_interim := last_interim s;
     all_typed := all_typed s; world := world s |}.

Definition set_final_text (v : list string) (s : State) : State :=
  {| connection := connection s; recording := recording s; audio := audio s;
     stream := stream s; audio_thread := audio_thread s;
     final_text := v; last_interim := last_interim s;
     all_typed := all_typed s; world := world s |}.

Definition set_last_interim (v : string) (s : State) : State :=
  {| connection := connection s; recording := recording s; audio := audio s;
     stream := stream s; audio_thread := audio_thread s;
     final_text := final_text s; last_interim := v;
     all_typed := all_typed s; world := world s |}.

Definition set_all_typed (v : string) (s : State) : State :=
  {| connection := connection s; recording := recording s; audio := audio s;
     stream := stream s; audio_thread := audio_thread s;
     final_text := final_text s; last_interim := last_interim s;
     all_typed := v; world := world s |}.

Definition set_world (v : World) (s : State) : State :=
  {| connection := connection s; recording := recording s; audio := audio s;
     stream := stream s; audio_thread := audio_thread s;
     final_text := final_text s; last_interim := last_interim s;
     all_typed := all_typed s; world := v |}.

Definition emit (es : list effect) (s : State) : State :=
  set_world (emit_w es (world s)) s.

Definition fresh : M State nat :=
  fun s => let (h, w) := alloc_w (world s) in (Some h, set_world w s).

(** [copy_to_clipboard(text)] *)
Definition copy_to_clipboard (t : string) (s : State) : State :=
  emit [Pbcopy t] s.

(** *** The calls of [start_recording] that may raise *)

Local Open Scope py_scope.

(** [self.deepgram.listen.websocket.v("1")] *)
Definition websocket_v (env : StartEnv) : M State nat :=
  if websocket_v_ok env
  then c <- fresh ;; modify (emit [WsCreate c]) ;; ret c
  else raise.

(** [self.connection.start(options)] *)
Definition start_connection (env : StartEnv) (c : nat) : M State bool :=
  match connection_start env with
  | Some b => modify (emit [WsStart c b]) ;; ret b
  | None => modify (emit [WsStart c false]) ;; raise
  end.

(** [pyaudio.PyAudio()] *)
Definition PyAudio (env : StartEnv) : M State nat :=
  if PyAudio_ok env
  then a <- fresh ;; modify (emit [PyAudioNew a]) ;; ret a
  else raise.

(** [self.audio.open(format=paInt16, channels=1, rate=SAMPLE_RATE,
    input=True, frames_per_buffer=CHUNK_SIZE)] *)
Definition audio_open (env : StartEnv) (a : nat) : M State nat :=
  if audio_open_ok env
  then st <- fresh ;; modify (emit [StreamOpen a st]) ;; ret st
  else raise.

(** [thread.start()] *)
Definition thread_start (env : StartEnv) (t : nat) (f : thread_target)
  : M State unit :=
  if thread_start_ok env then modify (emit [ThreadStart t f]) else raise.

(** [AquaVoice.start_recording] (lines 70-117) *)
Definition start_recording (env : StartEnv) (s : State) : State :=
  if recording s then s
  else
    let s := set_recording true s in
    let s := set_final_text [] s in
    let s := set_last_interim "" s in
    let s := set_all_typed "" s in
    run (try_except
           (c <- websocket_v env ;;
            modify (set_connection (Some c)) ;;
            started <- start_connection env c ;;
            if negb started
            then modify (set_recording false)
            else
              a <- PyAudio env ;;
              modify (set_audio (Some a)) ;;
              st <- audio_open env a ;;
              modify (set_stream (Some st)) ;;
              t <- fresh ;;
              modify (set_audio_thread (Some t)) ;;
              thread_start env t capture_audio)
           (modify (set_recording false))) s.

Local Close Scope py_scope.

(** *** Teardown, shared word for word by [stop_recording] and
    [cancel_recording] *)

(** [if self.connection: try: finish() except: pass; self.connection = None] *)
Definition close_connection (env : StopEnv) (s : State) : State :=
  match connection s with
  | Some c => set_connection None (emit [WsFinish c (finish_ok env)] s)
  | None => s
  end.

(** [if self.stream: try: stop_stream(); close() except: pass;
    self.stream = None] *)
Definition close_stream (env : StopEnv) (s : State) : State :=
  match stream s with
  | Some st =>
      set_stream None
        (emit (StreamStop st (stop_stream_ok env)
               :: (if stop_stream_ok env
                   then [StreamClose st (close_ok env)] else []))
           s)
  | None => s
  end.

(** [if self.audio: try: terminate() except: pass; self.audio = None] *)
Definition terminate_audio (env : StopEnv) (s : State) : State :=
  match audio s with
  | Some a => set_audio None (emit [AudioTerminate a (terminate_ok env)] s)
  | None => s
  end.

(** [AquaVoice.stop_recording] (lines 119-157) *)
Definition stop_recording (env : StopEnv) (s : State) : State :=
  if negb (recording s) then s
  else
    let s := set_recording false s in
    let s := close_connection env s in
    let s := close_stream env s in
    let s := terminate_audio env s in
    let final := strip (join " " (final_text s)) in
    if truthy final then copy_to_clipboard final s else s.

(** [AquaVoice.cancel_recording] (lines 159-201) *)
Definition cancel_recording (env : StopEnv) (s : State) : State :=
  if negb (recording s) then s
  else
    let s := set_recording false s in
    let s := close_connection env s in
    let s := close_stream env s in
    let s := terminate_audio env s in
    if truthy (all_typed s)
    then
      let s := copy_to_clipboard (all_typed s) s in
      emit (press_backspaces (String.length (all_typed s))) s
    else s.

(** [AquaVoice._on_transcript] (lines 213-261): the reconciler, as it runs
    when no keyboard call raises and the [except] branch is not taken.
    [Faults._on_transcript] below is the callback with its [try] block; the
    two agree on a keyboard that works ([on_transcript_works]). *)
Definition _on_transcript (result : option Result) (s : State) : State :=
  if negb (recording s) then s
  else
    match result with
    | None => s
    | Some result =>
        match channel result with
        | None => s
        | Some ch =>
            match alternatives ch with
            | None | Some [] => s
            | Some (alt :: _) =>
                let text := transcript alt in
                let is_final :=
                  match is_final result with Some b => b | None => false end
                in
                if negb (truthy text) then s
                else
                  let s :=
                    if truthy (last_interim s)
                    then
                      let s :=
                        emit (press_backspaces
                                (String.length (last_interim s))) s in
                      set_all_typed
                        (slice_to_neg (String.length (last_interim s))
                           (all_typed s)) s
                    else s in
                  if is_final
                  then
                    let to_type := (text ++ " ")%string in
                    let s := emit [KbType to_type] s in
                    let s :=
                      set_all_typed (all_typed s ++ to_type)%string s in
                    let s := set_final_text (final_text s ++ [text]) s in
                    set_last_interim "" s
                  else
                    let s := emit [KbType text] s in
                    let s := set_all_typed (all_typed s ++ text)%string s in
                    set_last_interim text s
            end
        end
    end.

(** The reconciler applied to one event, and to a sequence of events in
    arrival order. *)
Definition apply (s : State) (e : TranscriptEvent) : State :=
  _on_transcript (payload e) s.

Definition apply_all (es : list TranscriptEvent) (s : State) : State :=
  fold_left apply es s.

End AquaVoice.

(** ** src/aqua_voice_app.py : class AquaVoiceApp *)

Module AquaVoiceApp.

Record State := {
  connection : option nat;
  recording : bool;
  audio : option nat;
  stream : option nat;
  audio_thread : option nat;
  final_text : list string;
  all_typed : string;
  transcript_queue : list string;
  queue_processor_thread : option nat;
  queue_running : bool;
  world : World
}.

(** [AquaVoiceApp.__init__] *)
Definition init : State :=
  {| connection := None; recording := false; audio := None; stream := None;
     audio_thread := None; final_text := []; all_typed := "";
     transcript_queue := []; queue_processor_thread := None;
     queue_running := false; world := new_world |}.

Definition set_connection (v : option nat) (s : State) : State :=
  {| connection := v; recording := recording s; audio := audio s;
     stream := stream s; audio_thread := audio_thread s;
     final_text := final_text s; all_typed := all_typed s;
     transcript_queue := transcript_queue s;
     queue_processor_thread := queue_processor_thread s;
     queue_running := queue_running s; world := world s |}.

Definition set_recording (v : bool) (s : State) : State :=
  {| connection := connection s; recording := v; audio := audio s;
     stream := stream s; audio_thread := audio_thread s;
     final_text := final_text s; all_typed := all_typed s;
     transcript_queue := transcript_queue s;
     queue_processor_thread := queue_processor_thread s;
     queue_running := queue_running s; world := world s |}.

Definition set_audio (v : option nat) (s : State) : State :=
  {| connection := connection s; recording := recording s; audio := v;
     stream := stream s; audio_thread := audio_thread s;
     final_text := final_text s; all_typed := all_typed s;
     transcript_queue := transcript_queue s;
     queue_processor_thread := queue_processor_thread s;
     queue_running := queue_running s; world := world s |}.

Definition set_stream (v : option nat) (s : State) : State :=
  {| connection := connection s; recording := recording s; audio := audio s;
     stream := v; audio_thread := audio_thread s;
     final_text := final_text s; all_typed := all_typed s;
     transcript_queue := transcript_queue s;
     queue_processor_thread := queue_processor_thread s;
     queue_running := queue_running s; world := world s |}.

Definition set_audio_thread (v : option nat) (s : State) : State :=
  {| connection := connection s; recording := recording s; audio := audio s;
     stream := stream s; audio_thread := v;
     final_text := final_text s; all_typed := all_typed s;
     transcript_queue := transcript_queue s;
     queue_processor_thread := queue_processor_thread s;
     queue_running := queue_running s; world := world s |}.

Definition set_final_text (v : list string) (s : State) : State :=
  {| connection := connection s; recording := recording s; audio := audio s;
     stream := stream s; audio_thread := audio_thread s;
     final_text := v; all_typed := all_typed s;
     transcript_queue := transcript_queue s;
     queue_processor_thread := queue_processor_thread s;
     queue_running := queue_running s; world := world s |}.

Definition set_all_typed (v : string) (s : State) : State :=
  {| connection := connection s; recording := recording s; audio := audio s;
     stream := stream s; audio_thread := audio_thread s;
     final_text := final_text s; all_typed := v;
     transcript_queue := transcript_queue s;
     queue_processor_thread := queue_processor_thread s;
     queue_running := queue_running s; world := world s |}.

Definition set_transcript_queue (v : list string) (s : State) : State :=
  {| connection := connection s; recording := recording s; audio := audio s;
     stream := stream s; audio_thread := audio_thread s;
     final_text := final_text s; all_typed := all_typed s;
     transcript_queue := v;
     queue_processor_thread := queue_processor_thread s;
     queue_running := queue_running s; world := world s |}.

Definition set_queue_processor_thread (v : option nat) (s : State) : State :=
  {| connection := connection s; recording := recording s; audio := audio s;
     stream := stream s; audio_thread := audio_thread s;
     final_text := final_text s; all_typed := all_typed s;
     transcript_queue := transcript_queue s;
     queue_processor_thread := v;
     queue_running := queue_running s; world := world s |}.

Definition set_queue_running (v : bool) (s : State) : State :=
  {| connection := connection s; recording := recording s; audio := audio s;
     stream := stream s; audio_thread := audio_thread s;
     final_text := final_text s; all_typed := all_typed s;
     transcript_queue := transcript_queue s;
     queue_processor_thread := queue_processor_thread s;
     queue_running := v; world := world s |}.

Definition set_world (v : World) (s : State) : State :=
  {| connection := connection s; recording := recording s; audio := audio s;
     stream := stream s; audio_thread := audio_thread s;
     final_text := final_text s; all_typed := all_typed s;
     transcript_queue := transcript_queue s;
     queue_processor_thread := queue_processor_thread s;
     queue_running := queue_running s; world := v |}.

Definition emit (es : list effect) (s : State) : State :=
  set_world (emit_w es (world s)) s.

Definition fresh : M State nat :=
  fun s => let (h, w) := alloc_w (world s) in (Some h, set_world w s).

(** [copy_to_clipboard(text)] *)
Definition copy_to_clipboard (t : string) (s : State) : State :=
  emit [Pbcopy t] s.

Local Open Scope py_scope.

Definition websocket_v (env : StartEnv) : M State nat :=
  if websocket_v_ok env
  then c <- fresh ;; modify (emit [WsCreate c]) ;; ret c
  else raise.

Definition start_connection (env : StartEnv) (c : nat) : M State bool :=
  match connection_start env with
  | Some b => modify (emit [WsStart c b]) ;; ret b
  | None => modify (emit [WsStart c false]) ;; raise
  end.

Definition PyAudio (env : StartEnv) : M State nat :=
  if PyAudio_ok env
  then a <- fresh ;; modify (emit [PyAudioNew a]) ;; ret a
  else raise.

Definition audio_open (env : StartEnv) (a : nat) : M State nat :=
  if audio_open_ok env
  then st <- fresh ;; modify (emit [StreamOpen a st]) ;; ret st
  else raise.

Definition thread_start (env : StartEnv) (t : nat) (f : thread_target)
  : M State unit :=
  if thread_start_ok env then modify (emit [ThreadStart t f]) else raise.

(** [AquaVoiceApp.start_recording] (lines 285-346).  The queue processor
    thread is created and started before the [try] block is entered. *)
Definition start_recording (env : StartEnv) (s : State) : State :=
  if recording s then s
  else
    let s := set_recording true s in
    let s := set_final_text [] s in
    let s := set_all_typed "" s in
    let s := set_transcript_queue [] s in
    let s := set_queue_running true s in
    run (q <- fresh ;;
         modify (set_queue_processor_thread (Some q)) ;;
         thread_start env q process_transcript_queue ;;
         try_except
           (c <- websocket_v env ;;
            modify (set_connection (Some c)) ;;
            started <- start_connection env c ;;
            if negb started
            then modify (set_recording false)
            else
              a <- PyAudio env ;;
              modify (set_audio (Some a)) ;;
              st <- audio_open env a ;;
              modify (set_stream (Some st)) ;;
              t <- fresh ;;
              modify (set_audio_thread (Some t)) ;;
              thread_start env t capture_audio)
           (modify (set_recording false))) s.

Local Close Scope py_scope.

Definition close_connection (env : StopEnv) (s : State) : State :=
  match connection s with
  | Some c => set_connection None (emit [WsFinish c (finish_ok env)] s)
  | None => s
  end.

Definition close_stream (env : StopEnv) (s : State) : State :=
  match stream s with
  | Some st =>
      set_stream None
        (emit (StreamStop st (stop_stream_ok env)
               :: (if stop_stream_ok env
                   then [StreamClose st (close_ok env)] else []))
           s)
  | None => s
  end.

Definition terminate_audio (env : StopEnv) (s : State) : State :=
  match audio s with
  | Some a => set_audio None (emit [AudioTerminate a (terminate_ok env)] s)
  | None => s
  end.

(** One turn of the loop of [_process_transcript_queue] (lines 486-504),
    as it runs when [kb.type] does not raise: take the oldest queued
    transcript, type it with a trailing space, record it; an empty queue
    times out and the loop goes round.  [AppThreads.turn] below is the turn
    with its [try] block and the thread that takes it. *)
Definition process_one (s : State) : State :=
  match transcript_queue s with
  | [] => s
  | text :: rest =>
      let s := set_transcript_queue rest s in
      let to_type := (text ++ " ")%string in
      let s := emit [KbType to_type] s in
      let s := set_all_typed (all_typed s ++ to_type)%string s in
      set_final_text (final_text s ++ [text]) s
  end.

(** The loop condition [self.queue_running or not queue.empty()]. *)
Definition processor_loops (s : State) : bool :=
  queue_running s
  || match transcript_queue s with [] => false | _ :: _ => true end.

(** [thread.is_alive()] *)
Definition is_alive (t : nat) (s : State) : bool :=
  existsb (Nat.eqb t)
    (running_threads process_transcript_queue (trace (world s))).

(** [if thread and thread.is_alive(): thread.join(timeout=...)], called
    once [queue_running] is False, when the wait does not time out: the
    processor works through what is still queued, one turn per item, finds
    its loop condition false and returns.  [AppThreads.join_processor]
    below lets the wait end either way. *)
Definition join_queue_processor (s : State) : State :=
  match queue_processor_thread s with
  | Some t =>
      if is_alive t s
      then
        let s := Nat.iter (List.length (transcript_queue s)) process_one s in
        emit [ThreadExit t] s
      else s
  | None => s
  end.

(** [AquaVoiceApp.stop_recording] (lines 348-391) *)
Definition stop_recording (env : StopEnv) (s : State) : State :=
  if negb (recording s) then s
  else
    let s := set_recording false s in
    let s := close_connection env s in
    let s := close_stream env s in
    let s := terminate_audio env s in
    let s := set_queue_running false s in
    let s := join_queue_processor s in
    let final := strip (join " " (final_text s)) in
    if truthy final then copy_to_clipboard final s else s.

(** [AquaVoiceApp.cancel_recording] (lines 393-445) *)
Definition cancel_recording (env : StopEnv) (s : State) : State :=
  if negb (recording s) then s
  else
    let s := set_recording false s in
    let s := set_queue_running false s in
    let s := set_transcript_queue [] s in
    let s := close_connection env s in
    let s := close_stream env s in
    let s := terminate_audio env s in
    let s := join_queue_processor s in
    if truthy (all_typed s)
    then emit (press_backspaces (String.length (all_typed s))) s
    else s.

(** [AquaVoiceApp._on_transcript] (lines 458-484): the callback only
    queues the text. *)
Definition _on_transcript (result : option Result) (s : State) : State :=
  if negb (recording s) then s
  else
    match result with
    | None => s
    | Some result =>
        match channel result with
        | None => s
        | Some ch =>
            match alternatives ch with
            | None | Some [] => s
            | Some (alt :: _) =>
                let text := transcript alt in
                if negb (truthy text) then s
                else set_transcript_queue (transcript_queue s ++ [text]) s
            end
        end
    end.

(** The callback followed by the processor's turn for the queued item. *)
Definition apply (s : State) (e : TranscriptEvent) : State :=
  process_one (_on_transcript (payload e) s).

End AquaVoiceApp.

(** ** Reading a session *)

(** The text on screen owed to the confirmed segments: each one followed by
    a space. *)
Fixpoint typed_finals (segments : list string) : string :=
  match segments with
  | [] => ""
  | t :: rest => (t ++ " " ++ typed_finals rest)%string
  end.

(** What an event makes the injector type. *)
Definition typed_text (e : TranscriptEvent) : string :=
  if final e then (text e ++ " ")%string else text e.

(** The effects appended to a trace [before] to reach [after]. *)
Definition issued_since (before after : World) : list effect :=
  skipn (List.length (trace before)) (trace after).

(** The reconciler invariant, relative to the world [w0] in which the
    reconciler was reset: the buffer is the net result of the keystrokes
    issued since, and it is the confirmed text followed by the one pending
    interim fragment. *)
Definition reconciled (w0 : World) (s : AquaVoice.State) : Prop :=
  exists ops,
    trace (AquaVoice.world s) = trace w0 ++ ops
    /\ AquaVoice.all_typed s = net_typed ops
    /\ AquaVoice.all_typed s
       = (typed_finals (AquaVoice.final_text s)
          ++ AquaVoice.last_interim s)%string.

(** ** Reading a whole session *)

(** The calls the teardown block of [stop_recording] and [cancel_recording]
    makes on the handles [self.connection], [self.stream], [self.audio]. *)
Definition teardown_trace (env : StopEnv) (c st a : option nat)
  : list effect :=
  match c with
  | Some c => [WsFinish c (finish_ok env)]
  | None => []
  end
  ++ match st with
     | Some st =>
         StreamStop st (stop_stream_ok env)
         :: (if stop_stream_ok env then [StreamClose st (close_ok env)] else [])
     | None => []
     end
  ++ match a with
     | Some a => [AudioTerminate a (terminate_ok env)]
     | None => []
     end.

(** Every step of [start_recording] succeeds. *)
Definition start_succeeds (env : StartEnv) : bool :=
  websocket_v_ok env
  && match connection_start env with Some true => true | _ => false end
  && PyAudio_ok env && audio_open_ok env && thread_start_ok env.

(** The texts of the final events that carry a text, in arrival order. *)
Definition confirmed_texts (es : list TranscriptEvent) : list string :=
  map text (filter (fun e => final e && truthy (text e)) es).

(** A trace made of keyboard calls only. *)
Definition keyboard_only (tr : list effect) : Prop := keyboard_calls tr = tr.

(** Keyboard calls and clipboard writes: the effects that touch no
    connection, stream, PyAudio instance or thread. *)
Definition quiet (e : effect) : bool :=
  match e with
  | KbPress _ | KbRelease _ | KbType _ | Pbcopy _ => true
  | _ => false
  end.

(** ** The menu-bar app while it records *)

(** Two things happen to the app between start and stop: the network
    client calls [_on_transcript], and the queue processor thread takes a
    turn of its loop.  A schedule lists them in the order they happen, for
    one processor thread; [AppThreads.step] below names the threads. *)
Inductive app_step := Callback (p : option Result) | ProcessorTurn.

Definition app_run_step (s : AquaVoiceApp.State) (a : app_step)
  : AquaVoiceApp.State :=
  match a with
  | Callback p => AquaVoiceApp._on_transcript p s
  | ProcessorTurn => AquaVoiceApp.process_one s
  end.

Definition app_run (steps : list app_step) (s : AquaVoiceApp.State)
  : AquaVoiceApp.State :=
  fold_left app_run_step steps s.

(** The text a payload carries, if it carries one. *)
Definition carried_text (p : option Result) : list string :=
  match p with
  | Some r =>
      match channel r with
      | Some ch =>
          match alternatives ch with
          | Some (alt :: _) =>
              if truthy (transcript alt) then [transcript alt] else []
          | _ => []
          end
      | None => []
      end
  | None => []
  end.

(** The texts handed to the callback by a schedule, in arrival order. *)
Definition arrived (steps : list app_step) : list string :=
  flat_map (fun a => match a with
                     | Callback p => carried_text p
                     | ProcessorTurn => []
                     end) steps.

(** The payloads a schedule hands to the callback, in arrival order. *)
Definition delivered (steps : list app_step) : list (option Result) :=
  flat_map (fun a => match a with
                     | Callback p => [p]
                     | ProcessorTurn => []
                     end) steps.

(** The keyboard calls that type a list of finals. *)
Definition type_finals (texts : list string) : list effect :=
  map (fun t => KbType (t ++ " ")%string) texts.

(** ** src/aqua_voice.py : the hotkey listener *)

Module Hotkey.

Section Clock.

(** [time.time()] returns a float; the values it returns and the test
    [now - self.last_option_tap < DOUBLE_TAP_THRESHOLD] are left abstract. *)
Variable time : Type.
Variable within_threshold : time -> time -> bool.

(** The session together with the double-tap bookkeeping of
    [AquaVoice.__init__]. *)
Record Listener := {
  session : AquaVoice.State;
  last_option_tap : time;
  option_tap_count : nat
}.

(** [AquaVoice.__init__], with [zero] for the initial [last_option_tap = 0]. *)
Definition init (zero : time) : Listener :=
  {| session := AquaVoice.init; last_option_tap := zero;
     option_tap_count := 0 |}.

Definition set_session (v : AquaVoice.State) (l : Listener) : Listener :=
  {| session := v; last_option_tap := last_option_tap l;
     option_tap_count := option_tap_count l |}.

Definition set_last_option_tap (v : time) (l : Listener) : Listener :=
  {| session := session l; last_option_tap := v;
     option_tap_count := option_tap_count l |}.

Definition set_option_tap_count (v : nat) (l : Listener) : Listener :=
  {| session := session l; last_option_tap := last_option_tap l;
     option_tap_count := v |}.

(** [AquaVoice._handle_option_tap] (lines 267-285) *)
Definition _handle_option_tap
  (env : StartEnv) (senv : StopEnv) (now : time) (l : Listener) : Listener :=
  let l :=
    if AquaVoice.recording (session l)
    then
      let l := set_session (AquaVoice.stop_recording senv (session l)) l in
      set_option_tap_count 0 l
    else
      if within_threshold now (last_option_tap l)
      then
        let l := set_option_tap_count (option_tap_count l + 1) l in
        if 1 <=? option_tap_count l
        then
          let l :=
            set_session (AquaVoice.start_recording env (session l)) l in
          set_option_tap_count 0 l
        else l
      else set_option_tap_count 0 l
  in
  set_last_option_tap now l.

(** The keys [on_release] tells apart. *)
Inductive released_key := alt_r | esc | other_key.

(** [on_release] inside [AquaVoice.run] (lines 289-294) *)
Definition on_release
  (env : StartEnv) (senv : StopEnv) (now : time) (key : released_key)
  (l : Listener) : Listener :=
  match key with
  | alt_r => _handle_option_tap env senv now l
  | esc =>
      if AquaVoice.recording (session l)
      then set_session (AquaVoice.cancel_recording senv (session l)) l
      else l
  | other_key => l
  end.

(** What reaches the program while it runs: a key release, with the time
    at which the handler reads the clock and the answers the outside world
    would give to a start or a teardown, or a transcript payload. *)
Inductive input :=
| Release (now : time) (key : released_key) (env : StartEnv) (senv : StopEnv)
| Transcript (p : option Result).

Definition step (l : Listener) (i : input) : Listener :=
  match i with
  | Release now key env senv => on_release env senv now key l
  | Transcript p => set_session (AquaVoice._on_transcript p (session l)) l
  end.

Definition run (inputs : list input) (l : Listener) : Listener :=
  fold_left step inputs l.

(** The tap counter is at rest and the typed buffer is the finalized
    segments, each followed by a space, followed by the pending interim. *)
Definition settled (l : Listener) : Prop :=
  option_tap_count l = 0
  /\ AquaVoice.all_typed (session l)
     = (typed_finals (AquaVoice.final_text (session l))
        ++ AquaVoice.last_interim (session l))%string.

End Clock.

End Hotkey.

(** ** src/aqua_voice_app.py : [find_env] and [load_env] *)

Module DotEnv.

(** [c in s] for a one-character [c]. *)
Fixpoint contains (c : ascii) (s : string) : bool :=
  match s with
  | EmptyString => false
  | String x r => Ascii.eqb x c || contains c r
  end.

(** [s.startswith(c)] for a one-character [c]. *)
Definition startswith (c : ascii) (s : string) : bool :=
  match s with
  | EmptyString => false
  | String x _ => Ascii.eqb x c
  end.

(** [s.split(c, 1)] for an [s] that contains [c]: what precedes the first
    [c] and what follows it. *)
Fixpoint split_once (c : ascii) (s : string) : string * string :=
  match s with
  | EmptyString => (EmptyString, EmptyString)
  | String x r =>
      if Ascii.eqb x c then (EmptyString, r)
      else let (before, after) := split_once c r in (String x before, after)
  end.

(** Lines 57-60 of [load_env]: what one line of the file assigns, if
    anything. *)
Definition parse_env_line (line : string) : option (string * string) :=
  let line := strip line in
  if truthy line && negb (startswith "#" line) && contains "=" line
  then
    let (key, value) := split_once "=" line in
    Some (strip key, strip value)
  else None.

(** [os.environ], read as a mapping from names to values. *)
Definition environ : Type := string -> option string.

(** [os.environ[key] = value] raises for an empty name ([OSError] from
    [setenv]), a name with [=] in it, or a NUL character in the name or
    the value ([ValueError]). *)
Definition putenv_accepts (key value : string) : bool :=
  truthy key && negb (contains "=" key)
  && negb (contains "000" key) && negb (contains "000" value).

Definition setitem (key value : string) : M environ unit :=
  if putenv_accepts key value
  then modify (fun (e : environ) k =>
                 if String.eqb k key then Some value else e k)
  else raise.

Local Open Scope py_scope.

(** The body of [for line in f] *)
Definition load_line (line : string) : M environ unit :=
  match parse_env_line line with
  | Some (key, value) => setitem key value
  | None => ret tt
  end.

Fixpoint load_lines (lines : list string) : M environ unit :=
  match lines with
  | [] => ret tt
  | line :: rest => load_line line ;; load_lines rest
  end.

(** The places [find_env] looks at. *)
Inductive location :=
| bundle_resources   (* Path(sys.executable).parent.parent / "Resources" / ".env" *)
| script_dir         (* Path(__file__).parent / ".env" *)
| home_project       (* Path.home() / "Projects" / "aqua-voice" / ".env" *)
| working_dir.       (* Path(os.getcwd()) / ".env" *)

Definition locations (frozen : bool) : list location :=
  let locations := [script_dir; home_project; working_dir] in
  if frozen then bundle_resources :: locations else locations.

(** [find_env] (lines 34-48); [frozen] is [getattr(sys, 'frozen', False)]
    and [exists_] answers [loc.exists()]. *)
Definition find_env (frozen : bool) (exists_ : location -> bool)
  : option location :=
  find exists_ (locations frozen).

(** [load_env] (lines 51-62); [read] gives the lines of a file, or nothing
    when [open] raises. *)
Definition load_env
  (frozen : bool) (exists_ : location -> bool)
  (read : location -> option (list string)) : M environ bool :=
  match find_env frozen exists_ with
  | Some env_path =>
      match read env_path with
      | Some lines => load_lines lines ;; ret true
      | None => raise
      end
  | None => ret false
  end.

Local Close Scope py_scope.

(** A text made of whitespace only. *)
Fixpoint all_space (s : string) : bool :=
  match s with
  | EmptyString => true
  | String c r => isspace c && all_space r
  end.

(** A line assigns the name [k]: what the theorems on [load_env] say of
    the lines of a file. *)
Definition assigns (k : string) (line : string) : bool :=
  match parse_env_line line with
  | Some (key, _) => String.eqb key k
  | None => false
  end.

End DotEnv.

(** ** The keyboard when a call raises *)

(** What the keyboard controller answers during one run of a method.
    [works]: every call returns.  [raises_at i n]: the calls numbered
    before [i] return and call number [i] raises; if that call is
    [kb.type(text)] the first [n] characters of [text] have reached the
    document by then.  The calls of one run are numbered from 0 in the
    order the method makes them; nothing is called after the one that
    raises, since the exception leaves the [try] block or the method. *)
Inductive Keyboard := works | raises_at (call typed : nat).

Section KeyboardCalls.

Context {St : Type} (emit : list effect -> St -> St).

Local Open Scope py_scope.

(** [self.kb.press(key)] and [self.kb.release(key)] as call number [i]. *)
Definition kb_call (kb : Keyboard) (i : nat) (e : effect) : M St unit :=
  match kb with
  | works => modify (emit [e])
  | raises_at call _ => if i =? call then raise else modify (emit [e])
  end.

(** [self.kb.type(text)] as call number [i]. *)
Definition kb_type (kb : Keyboard) (i : nat) (text : string) : M St unit :=
  match kb with
  | works => modify (emit [KbType text])
  | raises_at call typed =>
      if i =? call
      then
        modify (emit (if typed =? 0 then []
                      else [KbType (substring 0 typed text)])) ;;
        raise
      else modify (emit [KbType text])
  end.

(** [for _ in range(n): self.kb.press(Key.backspace);
    self.kb.release(Key.backspace); time.sleep(0.003)], the first call
    being number [i]. *)
Fixpoint press_loop (kb : Keyboard) (i n : nat) : M St unit :=
  match n with
  | 0 => ret tt
  | S n' =>
      kb_call kb i (KbPress backspace) ;;
      kb_call kb (S i) (KbRelease backspace) ;;
      press_loop kb (S (S i)) n'
  end.

End KeyboardCalls.

(** ** src/aqua_voice.py : the methods that call the keyboard, with the
    answers of the keyboard *)

Module Faults.

Import AquaVoice.

Local Open Scope py_scope.

(** [AquaVoice._on_transcript] (lines 213-261) with its [try] block: an
    exception of a keyboard call is caught at line 260 and printed, and the
    callback returns with the assignments made so far. *)
Definition _on_transcript (kb : Keyboard) (result : option Result) (s : State)
  : State :=
  if negb (recording s) then s
  else
    run
      (try_except
         (match result with
          | None => ret tt
          | Some result =>
              match channel result with
              | None => ret tt
              | Some ch =>
                  match alternatives ch with
                  | None | Some [] => ret tt
                  | Some (alt :: _) =>
                      let text := transcript alt in
                      let is_final :=
                        match is_final result with
                        | Some b => b
                        | None => false
                        end in
                      if negb (truthy text) then ret tt
                      else
                        let n := String.length (last_interim s) in
                        (if truthy (last_interim s)
                         then
                           press_loop emit kb 0 n ;;
                           modify (fun s =>
                                     set_all_typed
                                       (slice_to_neg n (all_typed s)) s)
                         else ret tt) ;;
                        if is_final
                        then
                          let to_type := (text ++ " ")%string in
                          kb_type emit kb (2 * n) to_type ;;
                          modify (fun s =>
                                    set_all_typed
                                      (all_typed s ++ to_type)%string s) ;;
                          modify (fun s =>
                                    set_final_text (final_text s ++ [text]) s) ;;
                          modify (set_last_interim "")
                        else
                          kb_type emit kb (2 * n) text ;;
                          modify (fun s =>
                                    set_all_typed
                                      (all_typed s ++ text)%string s) ;;
                          modify (set_last_interim text)
                  end
              end
          end)
         (ret tt)) s.

(** One event delivered to the callback, with what the keyboard answers
    during that run of the callback; and a sequence of them. *)
Definition apply (s : State) (r : Keyboard * TranscriptEvent) : State :=
  _on_transcript (fst r) (payload (snd r)) s.

Definition apply_all (rs : list (Keyboard * TranscriptEvent)) (s : State)
  : State :=
  fold_left apply rs s.

(** [AquaVoice.cancel_recording] (lines 159-201); its backspace loop is in
    no [try] block, so an exception of the keyboard leaves the method. *)
Definition cancel_recording (kb : Keyboard) (env : StopEnv) : M State unit :=
  fun s =>
    if negb (recording s) then (Some tt, s)
    else
      let s := set_recording false s in
      let s := close_connection env s in
      let s := close_stream env s in
      let s := terminate_audio env s in
      if truthy (all_typed s)
      then
        let s := copy_to_clipboard (all_typed s) s in
        press_loop emit kb 0 (String.length (all_typed s)) s
      else (Some tt, s).

Local Close Scope py_scope.

(** No keyboard call raised while these events were handled. *)
Definition all_work (rs : list (Keyboard * TranscriptEvent)) : bool :=
  forallb (fun r => match fst r with works => true | raises_at _ _ => false end)
    rs.

End Faults.

(** ** src/aqua_voice_app.py : the threads of the menu-bar app *)

Module AppThreads.

Import AquaVoiceApp.

Local Open Scope py_scope.

(** What the threads other than the main thread do, one step at a time:
    the network client delivers a payload to [_on_transcript]; the
    processor thread [t] makes one pass of the loop of
    [_process_transcript_queue], the keyboard answering [kb]; the processor
    thread [t] finds its loop condition false and returns.

    A pass is taken whole.  That is exact as long as one processor thread
    runs and no [join] gives up on it in the middle of a pass, which is
    what the theorems on these definitions assume; two processor threads
    on one queue interleave inside their passes and are not described. *)
Inductive step :=
| Delivers (p : option Result)
| Turn (t : nat) (kb : Keyboard)
| Returns (t : nat).

(** One pass of [while self.queue_running or not
    self.transcript_queue.empty()] (lines 486-504) by the thread [t]: an
    empty queue times out and the loop goes round; an exception of
    [kb.type] is caught and logged, the text taken from the queue being
    neither recorded nor typed again. *)
Definition turn (t : nat) (kb : Keyboard) (s : State) : State :=
  if is_alive t s && processor_loops s
  then
    match transcript_queue s with
    | [] => s
    | text :: rest =>
        let s := set_transcript_queue rest s in
        run
          (try_except
             (let to_type := (text ++ " ")%string in
              kb_type emit kb 0 to_type ;;
              modify (fun s =>
                        set_all_typed (all_typed s ++ to_type)%string s) ;;
              modify (fun s => set_final_text (final_text s ++ [text]) s))
             (ret tt)) s
    end
  else s.

(** The thread [t] leaves [_process_transcript_queue]. *)
Definition returns (t : nat) (s : State) : State :=
  if is_alive t s && negb (processor_loops s)
  then emit [ThreadExit t] s
  else s.

Definition run_step (s : State) (a : step) : State :=
  match a with
  | Delivers p => _on_transcript p s
  | Turn t kb => turn t kb s
  | Returns t => returns t s
  end.

Definition run_steps (steps : list step) (s : State) : State :=
  fold_left run_step steps s.

(** [if self.queue_processor_thread and
    self.queue_processor_thread.is_alive():
    self.queue_processor_thread.join(timeout=...)].  While the main thread
    waits, the other threads take the steps [during]; the wait ends when
    the thread has returned or when the timeout has passed, whichever comes
    first, so [during] may or may not end with the thread's return. *)
Definition join_processor (during : list step) (s : State) : State :=
  match queue_processor_thread s with
  | Some t => if is_alive t s then run_steps during s else s
  | None => s
  end.

(** [AquaVoiceApp.stop_recording] (lines 348-391) *)
Definition stop_recording (env : StopEnv) (during : list step) (s : State)
  : State :=
  if negb (recording s) then s
  else
    let s := set_recording false s in
    let s := close_connection env s in
    let s := close_stream env s in
    let s := terminate_audio env s in
    let s := set_queue_running false s in
    let s := join_processor during s in
    let final := strip (join " " (final_text s)) in
    if truthy final then copy_to_clipboard final s else s.

(** [AquaVoiceApp.cancel_recording] (lines 393-445); its backspace loop is
    in no [try] block. *)
Definition cancel_recording
  (kb : Keyboard) (env : StopEnv) (during : list step) : M State unit :=
  fun s =>
    if negb (recording s) then (Some tt, s)
    else
      let s := set_recording false s in
      let s := set_queue_running false s in
      let s := set_transcript_queue [] s in
      let s := close_connection env s in
      let s := close_stream env s in
      let s := terminate_audio env s in
      let s := join_processor during s in
      if truthy (all_typed s)
      then press_loop emit kb 0 (String.length (all_typed s)) s
      else (Some tt, s).

Local Close Scope py_scope.

(** The payloads handed to the callback, and the texts they carry, in
    arrival order. *)
Definition delivered (steps : list step) : list (option Result) :=
  flat_map (fun a => match a with Delivers p => [p] | _ => [] end) steps.

Definition arrived (steps : list step) : list string :=
  flat_map carried_text (delivered steps).

(** No [kb.type] raised in these steps. *)
Definition turns_work (steps : list step) : bool :=
  forallb (fun a => match a with
                    | Turn _ (raises_at _ _) => false
                    | _ => true
                    end) steps.

(** The processor thread [t] is the only one running. *)
Definition sole_processor (t : nat) (s : State) : Prop :=
  queue_processor_thread s = Some t
  /\ running_threads process_transcript_queue (trace (world s)) = [t].

End AppThreads.

(** * Lemmas *)

(** ** Strings *)

Section StringFacts.

Lemma append_nil_r (s : string) : (s ++ "")%string = s.
Proof. induction s as [|c s IH]; simpl; [reflexivity | now rewrite IH]. Qed.

Lemma append_assoc (a b c : string) :
  ((a ++ b) ++ c)%string = (a ++ (b ++ c))%string.
Proof. induction a as [|x a IH]; simpl; [reflexivity | now rewrite IH]. Qed.

Lemma length_append (a b : string) :
  String.length (a ++ b) = String.length a + String.length b.
Proof. induction a as [|x a IH]; simpl; [reflexivity | now rewrite IH]. Qed.


Lemma truthy_false (s : string) : truthy s = false <-> s = "".
Proof. destruct s; simpl; split; congruence. Qed.

Lemma truthy_length (s : string) : truthy s = true -> 0 < String.length s.
Proof. destruct s; simpl; [discriminate | lia]. Qed.

Lemma substring_prefix (a b : string) :
  substring 0 (String.length a) (a ++ b) = a.
Proof.
  induction a as [|x a IH]; simpl.
  - now destruct b.
  - now rewrite IH.
Qed.

(** [(a ++ b)[:-len(b)] = a] as soon as [b] is not empty. *)
Lemma slice_to_neg_append (a b : string) :
  truthy b = true -> slice_to_neg (String.length b) (a ++ b) = a.
Proof.
  intros Hb. apply truthy_length in Hb. unfold slice_to_neg.
  destruct (String.length b) as [|n] eqn:E; [lia|].
  rewrite length_append, E.
  replace (String.length a + S n - S n) with (String.length a) by lia.
  apply substring_prefix.
Qed.

Lemma chop_snoc (a : string) (c : ascii) :
  chop (a ++ String c "") = a.
Proof.
  induction a as [|x a IH]; simpl; [reflexivity|].
  rewrite IH. destruct a; reflexivity.
Qed.

Lemma iter_chop_append (a b : string) :
  Nat.iter (String.length b) chop (a ++ b)%string = a.
Proof.
  revert a. induction b as [|c b IH]; intros a; simpl.
  - apply append_nil_r.
  - change (String c b) with (String c "" ++ b)%string.
    rewrite <- append_assoc, IH. apply chop_snoc.
Qed.

Lemma typed_finals_snoc (segments : list string) (t : string) :
  typed_finals (segments ++ [t])
  = (typed_finals segments ++ (t ++ " "))%string.
Proof.
  induction segments as [|x l IH]; simpl.
  - reflexivity.
  - now rewrite IH, !append_assoc.
Qed.

End StringFacts.

(** ** Traces *)

Section TraceFacts.

Lemma net_typed_type (tr : list effect) (s : string) :
  net_typed (tr ++ [KbType s]) = (net_typed tr ++ s)%string.
Proof. unfold net_typed. now rewrite fold_left_app. Qed.

Lemma net_typed_backspaces (tr : list effect) (n : nat) :
  net_typed (tr ++ press_backspaces n) = Nat.iter n chop (net_typed tr).
Proof.
  unfold net_typed. rewrite fold_left_app.
  generalize (fold_left
                (fun doc e =>
                   match e with
                   | KbType s => (doc ++ s)%string
                   | KbPress backspace => chop doc
                   | _ => doc
                   end) tr "").
  induction n as [|n IH]; intros doc; simpl; [reflexivity|].
  rewrite IH. clear IH. induction n as [|n IH]; simpl; congruence.
Qed.



Lemma clipboard_writes_app (a b : list effect) :
  clipboard_writes (a ++ b) = clipboard_writes a ++ clipboard_writes b.
Proof. apply flat_map_app. Qed.

Lemma clipboard_writes_press (n : nat) :
  clipboard_writes (press_backspaces n) = [].
Proof. induction n as [|n IH]; simpl; congruence. Qed.

Lemma keyboard_calls_app (a b : list effect) :
  keyboard_calls (a ++ b) = keyboard_calls a ++ keyboard_calls b.
Proof. apply filter_app. Qed.

Lemma keyboard_calls_press (n : nat) :
  keyboard_calls (press_backspaces n) = press_backspaces n.
Proof. induction n as [|n IH]; simpl; congruence. Qed.

Lemma skipn_length_app {A} (l r : list A) :
  skipn (List.length l) (l ++ r) = r.
Proof. induction l as [|x l IH]; simpl; [reflexivity | exact IH]. Qed.


Lemma issued_since_refl (w : World) : issued_since w w = [].
Proof. unfold issued_since. apply skipn_all. Qed.

End TraceFacts.

(** ** Running the methods symbolically *)

(** Unfold the methods and the record plumbing, and nothing else: list
    append and the string functions stay folded for the rewriting lemmas. *)
Ltac run_voice :=
  cbv beta iota zeta delta
    [AquaVoice.start_recording AquaVoice.stop_recording
     AquaVoice.cancel_recording AquaVoice._on_transcript AquaVoice.apply
     AquaVoice.apply_all AquaVoice.close_connection AquaVoice.close_stream
     AquaVoice.terminate_audio AquaVoice.copy_to_clipboard AquaVoice.emit
     AquaVoice.fresh AquaVoice.websocket_v AquaVoice.start_connection
     AquaVoice.PyAudio AquaVoice.audio_open AquaVoice.thread_start
     AquaVoice.set_connection AquaVoice.set_recording AquaVoice.set_audio
     AquaVoice.set_stream AquaVoice.set_audio_thread AquaVoice.set_final_text
     AquaVoice.set_last_interim AquaVoice.set_all_typed AquaVoice.set_world
     AquaVoice.connection AquaVoice.recording AquaVoice.audio AquaVoice.stream
     AquaVoice.audio_thread AquaVoice.final_text AquaVoice.last_interim
     AquaVoice.all_typed AquaVoice.world
     run try_except bind ret modify raise emit_w alloc_w trace next_handle
     websocket_v_ok connection_start PyAudio_ok audio_open_ok thread_start_ok
     finish_ok stop_stream_ok close_ok terminate_ok
     all_ok clean_stop audio_open_fails connection_refused
     payload channel alternatives transcript is_final text final
     interim_event final_event fold_left negb truthy snd fst].

Ltac run_app :=
  cbv beta iota zeta delta
    [AquaVoiceApp.start_recording AquaVoiceApp.stop_recording
     AquaVoiceApp.cancel_recording AquaVoiceApp._on_transcript
     AquaVoiceApp.apply AquaVoiceApp.process_one
     AquaVoiceApp.join_queue_processor AquaVoiceApp.processor_loops
     AquaVoiceApp.close_connection AquaVoiceApp.close_stream
     AquaVoiceApp.terminate_audio AquaVoiceApp.copy_to_clipboard
     AquaVoiceApp.emit AquaVoiceApp.fresh AquaVoiceApp.websocket_v
     AquaVoiceApp.start_connection AquaVoiceApp.PyAudio
     AquaVoiceApp.audio_open AquaVoiceApp.thread_start
     AquaVoiceApp.set_connection AquaVoiceApp.set_recording
     AquaVoiceApp.set_audio AquaVoiceApp.set_stream
     AquaVoiceApp.set_audio_thread AquaVoiceApp.set_final_text
     AquaVoiceApp.set_all_typed AquaVoiceApp.set_transcript_queue
     AquaVoiceApp.set_queue_processor_thread AquaVoiceApp.set_queue_running
     AquaVoiceApp.set_world
     AquaVoiceApp.connection AquaVoiceApp.recording AquaVoiceApp.audio
     AquaVoiceApp.stream AquaVoiceApp.audio_thread AquaVoiceApp.final_text
     AquaVoiceApp.all_typed AquaVoiceApp.transcript_queue
     AquaVoiceApp.queue_processor_thread AquaVoiceApp.queue_running
     AquaVoiceApp.world
     run try_except bind ret modify raise emit_w alloc_w trace next_handle
     websocket_v_ok connection_start PyAudio_ok audio_open_ok thread_start_ok
     finish_ok stop_stream_ok close_ok terminate_ok
     all_ok clean_stop audio_open_fails connection_refused
     payload channel alternatives transcript is_final text final
     interim_event final_event fold_left negb truthy snd fst].

(** Read off what was appended to a trace [tr] from
    [issued_since _ {| trace := ((tr ++ a) ++ b) ++ ... |}]. *)
Ltac read_issued :=
  unfold issued_since; cbv [trace];
  repeat rewrite <- app_assoc;
  rewrite ?skipn_length_app.


Ltac split_on_is_alive :=
  repeat match goal with
    | |- context [AquaVoiceApp.is_alive ?t ?x] =>
        destruct (AquaVoiceApp.is_alive t x)
    end.

(** ** The reconciler, one event at a time *)

Section ReconcilerStep.

Import AquaVoice.

(** The callback drops an event when the session is not recording or the
    text is empty. *)
Lemma apply_dropped (s : State) (e : TranscriptEvent) :
  recording s = false \/ text e = "" -> apply s e = s.
Proof.
  intros [H | H]; unfold apply, _on_transcript, payload; simpl.
  - now rewrite H.
  - rewrite H; simpl. now destruct (recording s).
Qed.

(** Otherwise it retracts the pending interim, types the new text and
    records it. *)
Lemma apply_typed (s : State) (e : TranscriptEvent) :
  recording s = true -> truthy (text e) = true ->
  apply s e =
    {| connection := connection s;
       recording := recording s;
       audio := audio s;
       stream := stream s;
       audio_thread := audio_thread s;
       final_text :=
         if final e then final_text s ++ [text e] else final_text s;
       last_interim := if final e then "" else text e;
       all_typed :=
         ((if truthy (last_interim s)
           then slice_to_neg (String.length (last_interim s)) (all_typed s)
           else all_typed s) ++ typed_text e)%string;
       world :=
         {| trace :=
              trace (world s)
              ++ press_backspaces (String.length (last_interim s))
              ++ [KbType (typed_text e)];
            next_handle := next_handle (world s) |} |}.
Proof.
  intros Hrec Htext.
  destruct s as [c r a st th ft li ty [tr nh]]; destruct e as [t f].
  simpl in Hrec, Htext; subst r.
  destruct t as [|x t]; [discriminate|].
  unfold typed_text.
  destruct li as [|y li]; destruct f; run_voice;
    rewrite <- ?app_assoc; reflexivity.
Qed.

End ReconcilerStep.

(** ** The reconciler invariant *)

Section ReconcilerInvariant.

Import AquaVoice.

Lemma reconciled_reset (s : State) :
  final_text s = [] -> last_interim s = "" -> all_typed s = "" ->
  reconciled (world s) s.
Proof.
  intros Hf Hi Ht. exists []. rewrite app_nil_r, Hf, Hi, Ht.
  repeat split.
Qed.

Lemma reconciled_apply (w0 : World) (s : State) (e : TranscriptEvent) :
  reconciled w0 s -> reconciled w0 (apply s e).
Proof.
  intros (ops & Htr & Hnet & Hshape).
  destruct (recording s) eqn:Hrec;
    [| rewrite apply_dropped by (now left); now exists ops].
  destruct (truthy (text e)) eqn:Htext;
    [| apply truthy_false in Htext;
       rewrite apply_dropped by (now right); now exists ops].
  rewrite (apply_typed s e Hrec Htext).
  exists (ops ++ press_backspaces (String.length (last_interim s))
              ++ [KbType (typed_text e)]).
  simpl. split; [now rewrite Htr, <- app_assoc|].
  assert (Hcut :
            (if truthy (last_interim s)
             then slice_to_neg (String.length (last_interim s)) (all_typed s)
             else all_typed s) = typed_finals (final_text s)).
  { destruct (truthy (last_interim s)) eqn:Hli.
    - rewrite Hshape. now apply slice_to_neg_append.
    - apply truthy_false in Hli. rewrite Hshape, Hli.
      apply append_nil_r. }
  rewrite Hcut. split.
  - rewrite app_assoc, net_typed_type, net_typed_backspaces, <- Hnet.
    rewrite Hshape at 1. now rewrite iter_chop_append.
  - unfold typed_text. destruct (final e).
    + now rewrite typed_finals_snoc, append_nil_r.
    + reflexivity.
Qed.

Lemma reconciled_apply_all (w0 : World) (es : list TranscriptEvent) :
  forall s, reconciled w0 s -> reconciled w0 (apply_all es s).
Proof.
  unfold apply_all.
  induction es as [|e es IH]; intros s H; simpl; [exact H|].
  apply IH. now apply reconciled_apply.
Qed.

End ReconcilerInvariant.

(** * The claims *)

(** C1. From a freshly reset reconciler, interim "how", interim "how are",
    final "how are you" make the injector type "how", press backspace 3
    times, type "how are", press backspace 7 times and type "how are you ";
    as edit operations: insert, delete 3, insert, delete 7, insert; and the
    typed buffer ends as "how are you ". *)
Theorem how_are_you_scenario (s : AquaVoice.State) :
  AquaVoice.recording s = true ->
  AquaVoice.last_interim s = "" ->
  AquaVoice.all_typed s = "" ->
  let s' :=
    AquaVoice.apply_all
      [interim_event "how"; interim_event "how are";
       final_event "how are you"] s in
  issued_since (AquaVoice.world s) (AquaVoice.world s')
  = KbType "how" :: press_backspaces 3
    ++ KbType "how are" :: press_backspaces 7
    ++ [KbType "how are you "]
  /\ edits (issued_since (AquaVoice.world s) (AquaVoice.world s'))
     = [Insert "how"; Delete 3; Insert "how are"; Delete 7;
        Insert "how are you "]
  /\ AquaVoice.all_typed s' = "how are you ".
Proof.
  intros Hrec Hli Hty.
  destruct s as [c r a st th ft li ty [tr nh]].
  simpl in Hrec, Hli, Hty; subst.
  run_voice. read_issued. repeat split.
Qed.

Lemma how_are_you_scenario_witness :
  let s := AquaVoice.start_recording all_ok AquaVoice.init in
  let s' :=
    AquaVoice.apply_all
      [interim_event "how"; interim_event "how are";
       final_event "how are you"] s in
  edits (issued_since (AquaVoice.world s) (AquaVoice.world s'))
  = [Insert "how"; Delete 3; Insert "how are"; Delete 7;
     Insert "how are you "]
  /\ AquaVoice.all_typed s' = "how are you ".
Proof.
  apply (how_are_you_scenario
           (AquaVoice.start_recording all_ok AquaVoice.init));
    reflexivity.
Defined.




(** C7. An event whose text is empty, final or interim, is dropped by the
    callback of either entry point: the whole state, the trace of keyboard
    calls included, is unchanged, so no edit operation is emitted and the
    typed buffer, the pending interim and the finalized segments stay as
    they were. *)
Theorem empty_text_is_dropped (e : TranscriptEvent) :
  text e = "" ->
  (forall s : AquaVoice.State,
      AquaVoice._on_transcript (payload e) s = s
      /\ edits (issued_since (AquaVoice.world s)
                  (AquaVoice.world (AquaVoice._on_transcript (payload e) s)))
         = [])
  /\ (forall s : AquaVoiceApp.State,
         AquaVoiceApp._on_transcript (payload e) s = s
         /\ edits (issued_since (AquaVoiceApp.world s)
                     (AquaVoiceApp.world
                        (AquaVoiceApp._on_transcript (payload e) s)))
            = []).
Proof.
  intros Htext. split; intros s.
  - assert (H : AquaVoice._on_transcript (payload e) s = s).
    { apply (apply_dropped s e). now right. }
    rewrite H, issued_since_refl. now split.
  - assert (H : AquaVoiceApp._on_transcript (payload e) s = s).
    { unfold AquaVoiceApp._on_transcript, payload; simpl.
      rewrite Htext; simpl. now destruct (AquaVoiceApp.recording s). }
    rewrite H, issued_since_refl. now split.
Qed.

Lemma empty_text_is_dropped_witness :
  let s :=
    AquaVoice.apply (AquaVoice.start_recording all_ok AquaVoice.init)
      (interim_event "how") in
  AquaVoice._on_transcript (payload (final_event "")) s = s
  /\ AquaVoice.last_interim s = "how".
Proof.
  destruct (empty_text_is_dropped (final_event "") eq_refl) as [H _].
  split; [apply H | reflexivity].
Defined.

(** ** The guards of the session controller *)

Section Guards.

Lemma recording_after_cancel (env : StopEnv) (s : AquaVoice.State) :
  AquaVoice.recording (AquaVoice.cancel_recording env s) = false.
Proof.
  unfold AquaVoice.cancel_recording, AquaVoice.close_connection,
    AquaVoice.close_stream, AquaVoice.terminate_audio.
  destruct s as [c r a st th ft li ty w]; simpl.
  destruct r; simpl; [|reflexivity].
  destruct c, st, a; simpl; destruct (truthy ty); reflexivity.
Qed.

Lemma app_recording_after_cancel (env : StopEnv) (s : AquaVoiceApp.State) :
  AquaVoiceApp.recording (AquaVoiceApp.cancel_recording env s) = false.
Proof.
  unfold AquaVoiceApp.cancel_recording, AquaVoiceApp.close_connection,
    AquaVoiceApp.close_stream, AquaVoiceApp.terminate_audio,
    AquaVoiceApp.join_queue_processor.
  destruct s as [c r a st th ft ty q qt qr w]; simpl.
  destruct r; simpl; [|reflexivity].
  destruct c, st, a, qt; simpl;
    repeat match goal with
      | |- context [AquaVoiceApp.is_alive ?t ?x] =>
          destruct (AquaVoiceApp.is_alive t x); simpl
      end;
    destruct (truthy ty); reflexivity.
Qed.

End Guards.

(** C8. A second [cancel_recording] right after a first one finds the
    session no longer recording and returns at once: the state after two
    calls is the state after one, and the second call issues nothing (no
    clipboard write, no backspace).  This holds for both entry points and
    whatever the teardown calls answer. *)
Theorem cancel_twice_is_cancel_once (env env' : StopEnv) :
  (forall s : AquaVoice.State,
      let s1 := AquaVoice.cancel_recording env s in
      let s2 := AquaVoice.cancel_recording env' s1 in
      s2 = s1
      /\ issued_since (AquaVoice.world s1) (AquaVoice.world s2) = [])
  /\ (forall s : AquaVoiceApp.State,
         let s1 := AquaVoiceApp.cancel_recording env s in
         let s2 := AquaVoiceApp.cancel_recording env' s1 in
         s2 = s1
         /\ issued_since (AquaVoiceApp.world s1) (AquaVoiceApp.world s2)
            = []).
Proof.
  split; intros s s1 s2.
  - assert (H : s2 = s1).
    { subst s2. unfold AquaVoice.cancel_recording at 1.
      subst s1. now rewrite recording_after_cancel. }
    rewrite H, issued_since_refl. now split.
  - assert (H : s2 = s1).
    { subst s2. unfold AquaVoiceApp.cancel_recording at 1.
      subst s1. now rewrite app_recording_after_cancel. }
    rewrite H, issued_since_refl. now split.
Qed.

(** C6. [start_recording] on a recording session returns at the guard and
    changes nothing; so two calls in a row, the first of which succeeds,
    open one connection and one input stream, those of the first call.
    [stop_recording] and [cancel_recording] on an idle session change
    nothing.  Both entry points. *)
Theorem start_stop_cancel_guards (env : StartEnv) (senv : StopEnv) :
  (forall s : AquaVoice.State,
      AquaVoice.recording s = true -> AquaVoice.start_recording env s = s)
  /\ (forall s : AquaVoice.State,
         AquaVoice.recording s = false ->
         AquaVoice.stop_recording senv s = s
         /\ AquaVoice.cancel_recording senv s = s)
  /\ (forall s : AquaVoice.State,
         AquaVoice.recording s = false ->
         let h := next_handle (AquaVoice.world s) in
         let s1 := AquaVoice.start_recording all_ok s in
         let s2 := AquaVoice.start_recording env s1 in
         s2 = s1
         /\ issued_since (AquaVoice.world s) (AquaVoice.world s2)
            = [WsCreate h; WsStart h true; PyAudioNew (1 + h);
               StreamOpen (1 + h) (2 + h); ThreadStart (3 + h) capture_audio]
         /\ List.length
              (open_connections
                 (issued_since (AquaVoice.world s) (AquaVoice.world s2))) = 1
         /\ List.length
              (open_streams
                 (issued_since (AquaVoice.world s) (AquaVoice.world s2))) = 1)
  /\ (forall s : AquaVoiceApp.State,
         AquaVoiceApp.recording s = true ->
         AquaVoiceApp.start_recording env s = s)
  /\ (forall s : AquaVoiceApp.State,
         AquaVoiceApp.recording s = false ->
         AquaVoiceApp.stop_recording senv s = s
         /\ AquaVoiceApp.cancel_recording senv s = s)
  /\ (forall s : AquaVoiceApp.State,
         AquaVoiceApp.recording s = false ->
         let h := next_handle (AquaVoiceApp.world s) in
         let s1 := AquaVoiceApp.start_recording all_ok s in
         let s2 := AquaVoiceApp.start_recording env s1 in
         s2 = s1
         /\ issued_since (AquaVoiceApp.world s) (AquaVoiceApp.world s2)
            = [ThreadStart h process_transcript_queue;
               WsCreate (1 + h); WsStart (1 + h) true; PyAudioNew (2 + h);
               StreamOpen (2 + h) (3 + h); ThreadStart (4 + h) capture_audio]
         /\ List.length
              (open_connections
                 (issued_since (AquaVoiceApp.world s) (AquaVoiceApp.world s2)))
            = 1
         /\ List.length
              (open_streams
                 (issued_since (AquaVoiceApp.world s) (AquaVoiceApp.world s2)))
            = 1).
Proof.
  repeat apply conj.
  - intros s H. unfold AquaVoice.start_recording. now rewrite H.
  - intros s H. unfold AquaVoice.stop_recording, AquaVoice.cancel_recording.
    now rewrite H.
  - intros [c r a st th ft li ty [tr nh]] H; simpl in H; subst r.
    run_voice. read_issued. repeat split.
  - intros s H. unfold AquaVoiceApp.start_recording. now rewrite H.
  - intros s H.
    unfold AquaVoiceApp.stop_recording, AquaVoiceApp.cancel_recording.
    now rewrite H.
  - intros [c r a st th ft ty q qt qr [tr nh]] H; simpl in H; subst r.
    run_app. read_issued. repeat split.
Qed.

Lemma start_stop_cancel_guards_witness :
  let s1 := AquaVoice.start_recording all_ok AquaVoice.init in
  AquaVoice.recording s1 = true
  /\ AquaVoice.start_recording all_ok s1 = s1
  /\ AquaVoice.stop_recording clean_stop AquaVoice.init = AquaVoice.init
  /\ AquaVoiceApp.cancel_recording clean_stop AquaVoiceApp.init
     = AquaVoiceApp.init.
Proof.
  destruct (start_stop_cancel_guards all_ok clean_stop)
    as (Hstart & Hidle & _ & _ & Happ & _).
  split; [reflexivity|].
  split; [apply Hstart; reflexivity|].
  split; [apply Hidle; reflexivity | apply Happ; reflexivity].
Defined.

(** C3 does not hold of the code.  When the connection has opened and
    [audio.open] raises, the [except] branch only resets [recording]: the
    started connection is never finished and the PyAudio instance is never
    terminated, and since the session is idle again [stop_recording] and
    [cancel_recording], which would close them, return at their guard.  In
    the menu-bar app the queue processor thread, started before the [try],
    is left looping ([queue_running] stays True), also when the connection
    is refused. *)
Theorem failed_start_leaves_handles_open :
  (let s := AquaVoice.start_recording audio_open_fails AquaVoice.init in
   AquaVoice.recording s = false
   /\ open_connections (trace (AquaVoice.world s)) = [0]
   /\ open_audio (trace (AquaVoice.world s)) = [1]
   /\ forall senv,
       AquaVoice.stop_recording senv s = s
       /\ AquaVoice.cancel_recording senv s = s)
  /\ (let s := AquaVoiceApp.start_recording audio_open_fails AquaVoiceApp.init in
      AquaVoiceApp.recording s = false
      /\ running_threads process_transcript_queue
           (trace (AquaVoiceApp.world s)) = [0]
      /\ AquaVoiceApp.processor_loops s = true
      /\ open_connections (trace (AquaVoiceApp.world s)) = [1]
      /\ open_audio (trace (AquaVoiceApp.world s)) = [2]
      /\ forall senv,
          AquaVoiceApp.stop_recording senv s = s
          /\ AquaVoiceApp.cancel_recording senv s = s)
  /\ (let s :=
        AquaVoiceApp.start_recording connection_refused AquaVoiceApp.init in
      AquaVoiceApp.recording s = false
      /\ running_threads process_transcript_queue
           (trace (AquaVoiceApp.world s)) = [0]
      /\ AquaVoiceApp.processor_loops s = true).
Proof.
  repeat apply conj; try reflexivity; intros senv; split; reflexivity.
Qed.




(** C9. From a freshly reset recording session, the finals "hello" and
    "world" followed by [stop_recording] put exactly "hello world" on the
    clipboard, the finalized segments joined by single spaces, and leave
    the typed buffer as "hello world ". *)
Theorem hello_world_round_trip (env : StopEnv) (s : AquaVoice.State) :
  AquaVoice.recording s = true ->
  AquaVoice.final_text s = [] ->
  AquaVoice.last_interim s = "" ->
  AquaVoice.all_typed s = "" ->
  let s1 :=
    AquaVoice.apply_all [final_event "hello"; final_event "world"] s in
  let s2 := AquaVoice.stop_recording env s1 in
  clipboard_writes (issued_since (AquaVoice.world s) (AquaVoice.world s2))
  = ["hello world"]
  /\ AquaVoice.all_typed s2 = "hello world "
  /\ AquaVoice.final_text s2 = ["hello"; "world"]
  /\ join " " (AquaVoice.final_text s2) = "hello world".
Proof.
  intros Hrec Hft Hli Hty.
  destruct s as [c r a st th ft li ty [tr nh]].
  simpl in Hrec, Hft, Hli, Hty; subst.
  destruct env as [f ss cl te].
  destruct c, st, a, ss; run_voice;
    change (strip (join " " (([] ++ ["hello"]) ++ ["world"])))
      with "hello world";
    cbv beta iota; read_issued; repeat split.
Qed.

Lemma hello_world_round_trip_witness :
  let s := AquaVoice.start_recording all_ok AquaVoice.init in
  let s2 :=
    AquaVoice.stop_recording clean_stop
      (AquaVoice.apply_all [final_event "hello"; final_event "world"] s) in
  clipboard_writes (trace (AquaVoice.world s2)) = ["hello world"]
  /\ AquaVoice.all_typed s2 = "hello world ".
Proof.
  destruct
    (hello_world_round_trip clean_stop
       (AquaVoice.start_recording all_ok AquaVoice.init)
       eq_refl eq_refl eq_refl eq_refl) as (_ & Hty & _).
  split; [reflexivity | exact Hty].
Defined.

(** ** The queue processor and the clipboard *)

Section QueueProcessor.

Import AquaVoiceApp.

Lemma process_one_clipboard (s : State) :
  clipboard_writes (trace (world (process_one s)))
  = clipboard_writes (trace (world s)).
Proof.
  destruct s as [c r a st th ft ty q qt qr [tr nh]].
  destruct q as [|t q]; run_app; [reflexivity|].
  rewrite clipboard_writes_app. apply app_nil_r.
Qed.

Lemma drain_clipboard (n : nat) (s : State) :
  clipboard_writes (trace (world (Nat.iter n process_one s)))
  = clipboard_writes (trace (world s)).
Proof.
  induction n as [|n IH]; simpl; [reflexivity|].
  now rewrite process_one_clipboard.
Qed.

Lemma join_clipboard (s : State) :
  clipboard_writes (trace (world (join_queue_processor s)))
  = clipboard_writes (trace (world s)).
Proof.
  unfold join_queue_processor.
  destruct (queue_processor_thread s) as [t|]; [|reflexivity].
  destruct (is_alive t s); [|reflexivity].
  unfold emit, emit_w, set_world; simpl.
  rewrite clipboard_writes_app, drain_clipboard. apply app_nil_r.
Qed.

Lemma teardown_clipboard (env : StopEnv) (s : State) :
  clipboard_writes
    (trace
       (world
          (set_queue_running false
             (terminate_audio env
                (close_stream env
                   (close_connection env (set_recording false s)))))))
  = clipboard_writes (trace (world s)).
Proof.
  destruct s as [c r a st th ft ty q qt qr [tr nh]].
  destruct env as [f ss cl te].
  destruct c, st, a, ss; run_app;
    rewrite ?clipboard_writes_app; simpl; rewrite ?app_nil_r; reflexivity.
Qed.

End QueueProcessor.

(** C10. [stop_recording] writes the clipboard exactly when the space-joined,
    stripped finalized segments are a non-empty string, and then writes that
    string once.  With no finalized segment the clipboard history is left
    as it was, no keyboard call is made, and the typed buffer and the
    pending interim keep the text typed on screen: it is neither deleted
    nor copied.  Both entry points; in the menu-bar app the segments are
    those present once the queue processor has been joined. *)
Theorem stop_copies_only_finalized_text (env : StopEnv) :
  (forall s : AquaVoice.State,
      AquaVoice.recording s = true ->
      let s' := AquaVoice.stop_recording env s in
      let final := strip (join " " (AquaVoice.final_text s)) in
      clipboard_writes (trace (AquaVoice.world s'))
      = clipboard_writes (trace (AquaVoice.world s))
        ++ (if truthy final then [final] else [])
      /\ keyboard_calls (trace (AquaVoice.world s'))
         = keyboard_calls (trace (AquaVoice.world s))
      /\ AquaVoice.all_typed s' = AquaVoice.all_typed s
      /\ AquaVoice.last_interim s' = AquaVoice.last_interim s
      /\ (AquaVoice.final_text s = [] ->
          clipboard_writes (trace (AquaVoice.world s'))
          = clipboard_writes (trace (AquaVoice.world s))))
  /\ (forall s : AquaVoiceApp.State,
         AquaVoiceApp.recording s = true ->
         let s' := AquaVoiceApp.stop_recording env s in
         let final := strip (join " " (AquaVoiceApp.final_text s')) in
         clipboard_writes (trace (AquaVoiceApp.world s'))
         = clipboard_writes (trace (AquaVoiceApp.world s))
           ++ (if truthy final then [final] else [])
         /\ (AquaVoiceApp.final_text s = [] ->
             AquaVoiceApp.transcript_queue s = [] ->
             clipboard_writes (trace (AquaVoiceApp.world s'))
             = clipboard_writes (trace (AquaVoiceApp.world s))
             /\ keyboard_calls (trace (AquaVoiceApp.world s'))
                = keyboard_calls (trace (AquaVoiceApp.world s))
             /\ AquaVoiceApp.all_typed s' = AquaVoiceApp.all_typed s)).
Proof.
  split.
  - intros [c r a st th ft li ty [tr nh]] Hrec.
    simpl in Hrec; subst r.
    destruct env as [f ss cl te].
    assert (Hnil : strip (join " " []) = "") by reflexivity.
    destruct c, st, a, ss; run_voice;
      destruct (strip (join " " ft)) as [|x final] eqn:Hfinal;
      rewrite ?clipboard_writes_app, ?keyboard_calls_app; simpl;
      rewrite ?app_nil_r; repeat split;
      intros ->; rewrite Hnil in Hfinal; discriminate.
  - intros s Hrec. split.
    + unfold AquaVoiceApp.stop_recording. rewrite Hrec.
      cbv beta iota zeta delta [negb].
      set (joined :=
             AquaVoiceApp.join_queue_processor
               (AquaVoiceApp.set_queue_running false
                  (AquaVoiceApp.terminate_audio env
                     (AquaVoiceApp.close_stream env
                        (AquaVoiceApp.close_connection env
                           (AquaVoiceApp.set_recording false s)))))).
      assert (Hclip :
                clipboard_writes (trace (AquaVoiceApp.world joined))
                = clipboard_writes (trace (AquaVoiceApp.world s))).
      { subst joined. now rewrite join_clipboard, teardown_clipboard. }
      destruct (strip (join " " (AquaVoiceApp.final_text joined)))
        as [|x final] eqn:Hfinal; simpl.
      * rewrite Hfinal; simpl. now rewrite app_nil_r.
      * rewrite Hfinal; simpl. now rewrite clipboard_writes_app, Hclip.
    + destruct s as [c r a st th ft ty q qt qr [tr nh]].
      simpl in Hrec; subst r. intros Hft Hq; simpl in Hft, Hq; subst ft q.
      destruct env as [f ss cl te].
      destruct c, st, a, ss, qt; run_app;
        cbv [Nat.iter nat_rect List.length];
        split_on_is_alive; run_app; simpl;
        rewrite ?clipboard_writes_app, ?keyboard_calls_app; simpl;
        rewrite ?app_nil_r; repeat split.
Qed.

Lemma stop_copies_only_finalized_text_witness :
  let s :=
    AquaVoice.apply (AquaVoice.start_recording all_ok AquaVoice.init)
      (interim_event "how") in
  let s' := AquaVoice.stop_recording clean_stop s in
  AquaVoice.final_text s = []
  /\ clipboard_writes (trace (AquaVoice.world s')) = []
  /\ keyboard_calls (trace (AquaVoice.world s')) = [KbType "how"]
  /\ AquaVoice.all_typed s' = "how"
  /\ AquaVoice.last_interim s' = "how".
Proof.
  destruct (stop_copies_only_finalized_text clean_stop) as [H _].
  destruct
    (H (AquaVoice.apply (AquaVoice.start_recording all_ok AquaVoice.init)
          (interim_event "how")) eq_refl)
    as (_ & Hkb & Hty & Hli & Hclip).
  split; [reflexivity|].
  split; [rewrite (Hclip eq_refl); reflexivity|].
  split; [rewrite Hkb; reflexivity|].
  split; [rewrite Hty | rewrite Hli]; reflexivity.
Defined.

(** * Further properties of the session methods *)

(** ** What [stop_recording] and [cancel_recording] leave behind *)

Section Teardown.

Import AquaVoice.

Lemma stop_recording_run (env : StopEnv) (s : State) :
  recording s = true ->
  stop_recording env s =
    {| connection := None; recording := false; audio := None; stream := None;
       audio_thread := audio_thread s;
       final_text := final_text s;
       last_interim := last_interim s;
       all_typed := all_typed s;
       world :=
         {| trace :=
              trace (world s)
              ++ teardown_trace env (connection s) (stream s) (audio s)
              ++ (if truthy (strip (join " " (final_text s)))
                  then [Pbcopy (strip (join " " (final_text s)))] else []);
            next_handle := next_handle (world s) |} |}.
Proof.
  intros Hrec.
  destruct s as [c r a st th ft li ty [tr nh]]; simpl in Hrec; subst r.
  destruct env as [f ss cl te]. unfold teardown_trace.
  destruct c, st, a, ss; run_voice;
    destruct (strip (join " " ft)); simpl;
    rewrite <- ?app_assoc, ?app_nil_r; reflexivity.
Qed.

Lemma cancel_recording_run (env : StopEnv) (s : State) :
  recording s = true ->
  cancel_recording env s =
    {| connection := None; recording := false; audio := None; stream := None;
       audio_thread := audio_thread s;
       final_text := final_text s;
       last_interim := last_interim s;
       all_typed := all_typed s;
       world :=
         {| trace :=
              trace (world s)
              ++ teardown_trace env (connection s) (stream s) (audio s)
              ++ (if truthy (all_typed s)
                  then Pbcopy (all_typed s)
                       :: press_backspaces (String.length (all_typed s))
                  else []);
            next_handle := next_handle (world s) |} |}.
Proof.
  intros Hrec.
  destruct s as [c r a st th ft li ty [tr nh]]; simpl in Hrec; subst r.
  destruct env as [f ss cl te]. unfold teardown_trace.
  destruct c, st, a, ss; run_voice;
    destruct ty; simpl;
    rewrite <- ?app_assoc, ?app_nil_r; reflexivity.
Qed.

Lemma teardown_trace_silent (env : StopEnv) (c st a : option nat) :
  keyboard_calls (teardown_trace env c st a) = []
  /\ clipboard_writes (teardown_trace env c st a) = [].
Proof.
  unfold teardown_trace.
  destruct c, st, a, (stop_stream_ok env); split; reflexivity.
Qed.

End Teardown.

(** ** What the transcript callback leaves alone *)

Section CallbackFrame.

Import AquaVoice.

Lemma recording_after_stop (env : StopEnv) (s : State) :
  recording (stop_recording env s) = false.
Proof.
  destruct (recording s) eqn:Hrec.
  - now rewrite stop_recording_run.
  - unfold stop_recording. now rewrite Hrec.
Qed.

Lemma payloads_dropped_when_idle (ps : list (option Result)) (s : State) :
  recording s = false ->
  fold_left (fun s p => _on_transcript p s) ps s = s.
Proof.
  intros Hrec. induction ps as [|p ps IH]; simpl; [reflexivity|].
  unfold _on_transcript at 2. rewrite Hrec. exact IH.
Qed.

Lemma apply_recording (s : State) (e : TranscriptEvent) :
  recording (apply s e) = recording s.
Proof.
  destruct (recording s) eqn:Hrec;
    [| now rewrite apply_dropped by (now left)].
  destruct (truthy (text e)) eqn:Htext.
  - now rewrite (apply_typed s e Hrec Htext).
  - apply truthy_false in Htext. now rewrite apply_dropped by (now right).
Qed.

Lemma apply_all_recording (es : list TranscriptEvent) (s : State) :
  recording (apply_all es s) = recording s.
Proof.
  unfold apply_all. revert s.
  induction es as [|e es IH]; intros s; simpl; [reflexivity|].
  now rewrite IH, apply_recording.
Qed.

(** The callback touches the typed buffer, the pending interim, the
    finalized segments and the keyboard, and nothing else. *)
Lemma apply_all_frame (es : list TranscriptEvent) (s : State) :
  exists ops,
    keyboard_only ops
    /\ trace (world (apply_all es s)) = trace (world s) ++ ops
    /\ next_handle (world (apply_all es s)) = next_handle (world s)
    /\ connection (apply_all es s) = connection s
    /\ stream (apply_all es s) = stream s
    /\ audio (apply_all es s) = audio s.
Proof.
  unfold apply_all. revert s.
  induction es as [|e es IH]; intros s; simpl.
  - exists []. rewrite app_nil_r. now repeat split.
  - destruct (IH (apply s e)) as (ops & Hkb & Htr & Hnh & Hc & Hst & Ha).
    destruct (recording s) eqn:Hrec;
      [| rewrite apply_dropped in * by (now left); now exists ops].
    destruct (truthy (text e)) eqn:Htext;
      [| apply truthy_false in Htext;
         rewrite apply_dropped in * by (now right); now exists ops].
    pose proof (apply_typed s e Hrec Htext) as Happ.
    assert (Hstep :
              trace (world (apply s e))
              = trace (world s)
                ++ press_backspaces (String.length (last_interim s))
                ++ [KbType (typed_text e)]
              /\ next_handle (world (apply s e)) = next_handle (world s)
              /\ connection (apply s e) = connection s
              /\ stream (apply s e) = stream s
              /\ audio (apply s e) = audio s)
      by (rewrite Happ; now repeat split).
    destruct Hstep as (Et & En & Ec & Es & Ea).
    rewrite Et in Htr. rewrite En in Hnh. rewrite Ec in Hc.
    rewrite Es in Hst. rewrite Ea in Ha.
    exists ((press_backspaces (String.length (last_interim s))
             ++ [KbType (typed_text e)]) ++ ops).
    repeat split; try assumption.
    + unfold keyboard_only in *.
      now rewrite !keyboard_calls_app, keyboard_calls_press, Hkb.
    + now rewrite Htr, <- !app_assoc.
Qed.

Lemma apply_all_final_text (es : list TranscriptEvent) (s : State) :
  recording s = true ->
  final_text (apply_all es s) = final_text s ++ confirmed_texts es.
Proof.
  unfold apply_all, confirmed_texts. revert s.
  induction es as [|e es IH]; intros s Hrec; simpl.
  - now rewrite app_nil_r.
  - rewrite IH by (now rewrite apply_recording).
    destruct (truthy (text e)) eqn:Htext.
    + rewrite (apply_typed s e Hrec Htext); simpl.
      destruct (final e); simpl; [now rewrite <- app_assoc | reflexivity].
    + apply truthy_false in Htext.
      rewrite apply_dropped by (now right).
      now rewrite andb_false_r.
Qed.

End CallbackFrame.

(** ** Traces of keyboard calls *)

Section KeyboardTraces.

Lemma keyboard_only_cons (e : effect) (tr : list effect) :
  keyboard_only (e :: tr) ->
  keyboard_calls [e] = [e] /\ keyboard_only tr.
Proof.
  unfold keyboard_only; simpl.
  destruct e; simpl; intros H;
    try (injection H as H; now split);
    exfalso;
    apply (f_equal (@List.length effect)) in H; simpl in H;
    unfold keyboard_calls in H;
    match type of H with
    | List.length (filter ?f ?l) = _ => pose proof (filter_length_le f l)
    end; lia.
Qed.

Lemma keyboard_only_no_clipboard (tr : list effect) :
  keyboard_only tr -> clipboard_writes tr = [].
Proof.
  induction tr as [|e tr IH]; intros H; [reflexivity|].
  apply keyboard_only_cons in H as [He Htr].
  destruct e; try discriminate He; simpl; auto.
Qed.

Lemma keyboard_only_quiet (tr : list effect) :
  keyboard_only tr -> forallb quiet tr = true.
Proof.
  induction tr as [|e tr IH]; intros H; [reflexivity|].
  apply keyboard_only_cons in H as [He Htr].
  destruct e; try discriminate He; simpl; auto.
Qed.

Lemma press_backspaces_quiet (n : nat) :
  forallb quiet (press_backspaces n) = true.
Proof. induction n as [|n IH]; simpl; auto. Qed.

Lemma quiet_no_handles (tr : list effect) :
  forallb quiet tr = true ->
  forall before,
    open_connections (before ++ tr) = open_connections before
    /\ open_audio (before ++ tr) = open_audio before
    /\ open_streams (before ++ tr) = open_streams before.
Proof.
  intros H before.
  unfold open_connections, open_audio, open_streams.
  rewrite !fold_left_app.
  generalize (fold_left
                (fun live e =>
                   match e with
                   | WsStart c true => live ++ [c]
                   | WsFinish c true => remove_id c live
                   | _ => live
                   end) before []).
  generalize (fold_left
                (fun live e =>
                   match e with
                   | PyAudioNew a => live ++ [a]
                   | AudioTerminate a true => remove_id a live
                   | _ => live
                   end) before []).
  generalize (fold_left
                (fun live e =>
                   match e with
                   | StreamOpen _ st => live ++ [st]
                   | StreamClose st true => remove_id st live
                   | _ => live
                   end) before []).
  induction tr as [|e tr IH]; intros l1 l2 l3; [now repeat split|].
  simpl in H. apply andb_true_iff in H as [He Htr].
  destruct e; try discriminate He; simpl; now apply IH.
Qed.

Lemma net_typed_silent (a b : list effect) :
  keyboard_calls b = [] -> net_typed (a ++ b) = net_typed a.
Proof.
  unfold net_typed. rewrite fold_left_app.
  generalize (fold_left
                (fun doc e =>
                   match e with
                   | KbType s => (doc ++ s)%string
                   | KbPress backspace => chop doc
                   | _ => doc
                   end) a "").
  induction b as [|e b IH]; intros doc H; [reflexivity|].
  destruct e; simpl in H; try discriminate H; simpl; now apply IH.
Qed.

End KeyboardTraces.

Section JoinedSegments.

Lemma typed_finals_join (segments : list string) :
  segments <> [] ->
  typed_finals segments = (join " " segments ++ " ")%string.
Proof.
  induction segments as [|t rest IH]; intros Hne; [congruence|].
  destruct rest as [|u rest]; [reflexivity|].
  change (typed_finals (t :: u :: rest))
    with (t ++ " " ++ typed_finals (u :: rest))%string.
  change (join " " (t :: u :: rest))
    with (t ++ " " ++ join " " (u :: rest))%string.
  rewrite IH by discriminate. now rewrite !append_assoc.
Qed.

End JoinedSegments.

Section AppStop.

Import AquaVoiceApp.

Lemma process_one_recording (s : State) :
  recording (process_one s) = recording s.
Proof.
  destruct s as [c r a st th ft ty q qt qr w]. now destruct q.
Qed.

Lemma drain_recording (n : nat) (s : State) :
  recording (Nat.iter n process_one s) = recording s.
Proof.
  induction n as [|n IH]; simpl; [reflexivity|].
  now rewrite process_one_recording.
Qed.

Lemma join_recording (s : State) :
  recording (join_queue_processor s) = recording s.
Proof.
  unfold join_queue_processor.
  destruct (queue_processor_thread s) as [t|]; [|reflexivity].
  destruct (is_alive t s); [|reflexivity].
  unfold emit, set_world; simpl. apply drain_recording.
Qed.

Lemma app_recording_after_stop (env : StopEnv) (s : State) :
  recording (stop_recording env s) = false.
Proof.
  unfold stop_recording.
  destruct (recording s) eqn:Hrec; simpl; [|exact Hrec].
  match goal with
  | |- recording (if ?b then copy_to_clipboard ?f ?x else ?x) = _ =>
      assert (H : recording x = false);
      [| destruct b; [unfold copy_to_clipboard, emit, set_world; simpl|];
         exact H]
  end.
  rewrite join_recording.
  destruct s as [c r a st th ft ty q qt qr w].
  unfold close_connection, close_stream, terminate_audio; simpl.
  destruct c, st, a; reflexivity.
Qed.

End AppStop.

(** Once [stop_recording] or [cancel_recording] has returned, whatever the
    transcript callback is handed is ignored: live typing issues no further
    keyboard call and changes no buffer, and the menu-bar app queues
    nothing. *)
Theorem late_transcripts_are_ignored
  (env : StopEnv) (ps : list (option Result)) :
  (forall s : AquaVoice.State,
      fold_left (fun s p => AquaVoice._on_transcript p s) ps
        (AquaVoice.stop_recording env s)
      = AquaVoice.stop_recording env s
      /\ fold_left (fun s p => AquaVoice._on_transcript p s) ps
           (AquaVoice.cancel_recording env s)
         = AquaVoice.cancel_recording env s)
  /\ (forall s : AquaVoiceApp.State,
         fold_left (fun s p => AquaVoiceApp._on_transcript p s) ps
           (AquaVoiceApp.stop_recording env s)
         = AquaVoiceApp.stop_recording env s
         /\ fold_left (fun s p => AquaVoiceApp._on_transcript p s) ps
              (AquaVoiceApp.cancel_recording env s)
            = AquaVoiceApp.cancel_recording env s).
Proof.
  assert (Happ :
            forall s : AquaVoiceApp.State,
              AquaVoiceApp.recording s = false ->
              fold_left (fun s p => AquaVoiceApp._on_transcript p s) ps s = s).
  { intros s Hrec. induction ps as [|p ps IH]; simpl; [reflexivity|].
    unfold AquaVoiceApp._on_transcript at 2. rewrite Hrec. exact IH. }
  split; intros s; split.
  - apply payloads_dropped_when_idle, recording_after_stop.
  - apply payloads_dropped_when_idle, recording_after_cancel.
  - apply Happ, app_recording_after_stop.
  - apply Happ, app_recording_after_cancel.
Qed.




(** Live typing: whatever the teardown calls answer, [stop_recording] and
    [cancel_recording] on a recording session leave it idle and holding no
    handle, having called [finish] on the connection held, [stop_stream] on
    the stream held and [terminate] on the PyAudio instance held: a call
    that raises does not keep the later ones from being made. *)
Theorem teardown_releases_every_handle
  (env : StopEnv) (s : AquaVoice.State) :
  AquaVoice.recording s = true ->
  forall s',
    s' = AquaVoice.stop_recording env s
    \/ s' = AquaVoice.cancel_recording env s ->
    let issued := issued_since (AquaVoice.world s) (AquaVoice.world s') in
    AquaVoice.recording s' = false
    /\ AquaVoice.connection s' = None
    /\ AquaVoice.stream s' = None
    /\ AquaVoice.audio s' = None
    /\ (forall c, AquaVoice.connection s = Some c ->
                  In (WsFinish c (finish_ok env)) issued)
    /\ (forall st, AquaVoice.stream s = Some st ->
                   In (StreamStop st (stop_stream_ok env)) issued)
    /\ (forall a, AquaVoice.audio s = Some a ->
                  In (AudioTerminate a (terminate_ok env)) issued).
Proof.
  intros Hrec s' Hs' issued.
  assert (Hissued :
            exists rest,
              issued
              = teardown_trace env (AquaVoice.connection s)
                  (AquaVoice.stream s) (AquaVoice.audio s) ++ rest
              /\ AquaVoice.recording s' = false
              /\ AquaVoice.connection s' = None
              /\ AquaVoice.stream s' = None
              /\ AquaVoice.audio s' = None).
  { subst issued. destruct Hs' as [-> | ->];
      [rewrite (stop_recording_run env s Hrec)
      | rewrite (cancel_recording_run env s Hrec)];
      unfold issued_since; simpl; rewrite skipn_length_app;
      eexists; repeat split. }
  destruct Hissued as (rest & -> & Hr & Hc & Hst & Ha).
  repeat split; try assumption.
  - intros c ->. apply in_or_app; left. simpl. now left.
  - intros st ->. apply in_or_app; left. unfold teardown_trace.
    apply in_or_app; right. apply in_or_app; left. now left.
  - intros a ->. apply in_or_app; left. unfold teardown_trace.
    apply in_or_app; right. apply in_or_app; right. now left.
Qed.

Lemma teardown_releases_every_handle_witness :
  let s := AquaVoice.start_recording all_ok AquaVoice.init in
  let env :=
    {| finish_ok := false; stop_stream_ok := false; close_ok := true;
       terminate_ok := true |} in
  let s' := AquaVoice.stop_recording env s in
  AquaVoice.audio s = Some 1
  /\ AquaVoice.audio s' = None
  /\ In (AudioTerminate 1 true)
       (issued_since (AquaVoice.world s) (AquaVoice.world s')).
Proof.
  destruct
    (teardown_releases_every_handle
       {| finish_ok := false; stop_stream_ok := false; close_ok := true;
          terminate_ok := true |}
       (AquaVoice.start_recording all_ok AquaVoice.init) eq_refl
       _ (or_introl eq_refl))
    as (_ & _ & _ & Ha & _ & _ & Hterm).
  split; [reflexivity|]. split; [exact Ha | exact (Hterm 1 eq_refl)].
Defined.

Lemma started_session (s : AquaVoice.State) :
  AquaVoice.recording s = false ->
  let h := next_handle (AquaVoice.world s) in
  let s1 := AquaVoice.start_recording all_ok s in
  AquaVoice.recording s1 = true
  /\ AquaVoice.connection s1 = Some h
  /\ AquaVoice.audio s1 = Some (1 + h)
  /\ AquaVoice.stream s1 = Some (2 + h)
  /\ trace (AquaVoice.world s1)
     = trace (AquaVoice.world s)
       ++ [WsCreate h; WsStart h true; PyAudioNew (1 + h);
           StreamOpen (1 + h) (2 + h); ThreadStart (3 + h) capture_audio].
Proof.
  intros Hrec.
  destruct s as [c r a st th ft li ty [tr nh]]; simpl in Hrec; subst r.
  run_voice. rewrite <- !app_assoc. repeat split.
Qed.

(** Live typing: a session that starts with every step succeeding and is
    ended by [stop_recording] or [cancel_recording] with every teardown
    call succeeding leaves nothing open, whatever transcripts arrived in
    between: among the calls issued from start to end, every connection
    started is finished, every stream opened is closed and every PyAudio
    instance created is terminated. *)
Theorem clean_session_leaves_nothing_open
  (s : AquaVoice.State) (es : list TranscriptEvent) :
  AquaVoice.recording s = false ->
  forall s',
    s' = AquaVoice.stop_recording clean_stop
           (AquaVoice.apply_all es (AquaVoice.start_recording all_ok s))
    \/ s' = AquaVoice.cancel_recording clean_stop
              (AquaVoice.apply_all es (AquaVoice.start_recording all_ok s)) ->
    let issued := issued_since (AquaVoice.world s) (AquaVoice.world s') in
    open_connections issued = []
    /\ open_streams issued = []
    /\ open_audio issued = [].
Proof.
  intros Hidle s' Hs' issued.
  destruct (started_session s Hidle) as (Hrec & Hc & Ha & Hst & Htr).
  set (h := next_handle (AquaVoice.world s)) in *.
  set (s0 := AquaVoice.start_recording all_ok s) in *.
  destruct (apply_all_frame es s0) as (ops & Hkb & Htr1 & _ & Hc1 & Hst1 & Ha1).
  assert (Hrec1 : AquaVoice.recording (AquaVoice.apply_all es s0) = true)
    by now rewrite apply_all_recording.
  set (s1 := AquaVoice.apply_all es s0) in *.
  assert (Hissued :
            exists tail,
              forallb quiet tail = true
              /\ issued
                 = (([WsCreate h; WsStart h true; PyAudioNew (1 + h);
                      StreamOpen (1 + h) (2 + h);
                      ThreadStart (3 + h) capture_audio] ++ ops)
                    ++ [WsFinish h true; StreamStop (2 + h) true;
                        StreamClose (2 + h) true;
                        AudioTerminate (1 + h) true]) ++ tail).
  { subst issued. destruct Hs' as [-> | ->].
    - exists (if truthy (strip (join " " (AquaVoice.final_text s1)))
              then [Pbcopy (strip (join " " (AquaVoice.final_text s1)))]
              else []).
      split; [now destruct (truthy _)|].
      rewrite (stop_recording_run clean_stop s1 Hrec1).
      unfold issued_since; simpl.
      rewrite Htr1, Htr, Hc1, Hst1, Ha1, Hc, Hst, Ha.
      rewrite <- !app_assoc, skipn_length_app. reflexivity.
    - exists (if truthy (AquaVoice.all_typed s1)
              then Pbcopy (AquaVoice.all_typed s1)
                   :: press_backspaces
                        (String.length (AquaVoice.all_typed s1))
              else []).
      split.
      { destruct (truthy _); [|reflexivity]. simpl.
        apply press_backspaces_quiet. }
      rewrite (cancel_recording_run clean_stop s1 Hrec1).
      unfold issued_since; simpl.
      rewrite Htr1, Htr, Hc1, Hst1, Ha1, Hc, Hst, Ha.
      rewrite <- !app_assoc, skipn_length_app. reflexivity. }
  destruct Hissued as (tail & Hquiet & ->).
  destruct (quiet_no_handles tail Hquiet
              (([WsCreate h; WsStart h true; PyAudioNew (1 + h);
                 StreamOpen (1 + h) (2 + h);
                 ThreadStart (3 + h) capture_audio] ++ ops)
               ++ [WsFinish h true; StreamStop (2 + h) true;
                   StreamClose (2 + h) true; AudioTerminate (1 + h) true]))
    as (-> & -> & ->).
  unfold open_connections, open_streams, open_audio.
  rewrite !fold_left_app.
  destruct (quiet_no_handles ops (keyboard_only_quiet ops Hkb)
              [WsCreate h; WsStart h true; PyAudioNew (1 + h);
               StreamOpen (1 + h) (2 + h);
               ThreadStart (3 + h) capture_audio])
    as (Hoc & Hoa & Hos).
  unfold open_connections, open_streams, open_audio in Hoc, Hoa, Hos.
  rewrite !fold_left_app in Hoc, Hoa, Hos.
  rewrite Hoc, Hoa, Hos. simpl. unfold remove_id; simpl.
  rewrite !Nat.eqb_refl. repeat split.
Qed.

Lemma clean_session_leaves_nothing_open_witness :
  let s' :=
    AquaVoice.cancel_recording clean_stop
      (AquaVoice.apply_all [interim_event "how"; final_event "how are you"]
         (AquaVoice.start_recording all_ok AquaVoice.init)) in
  let issued :=
    issued_since (AquaVoice.world AquaVoice.init) (AquaVoice.world s') in
  open_connections issued = []
  /\ open_streams issued = []
  /\ open_audio issued = [].
Proof.
  apply
    (clean_session_leaves_nothing_open AquaVoice.init
       [interim_event "how"; final_event "how are you"] eq_refl
       (AquaVoice.cancel_recording clean_stop
          (AquaVoice.apply_all
             [interim_event "how"; final_event "how are you"]
             (AquaVoice.start_recording all_ok AquaVoice.init)))).
  right. reflexivity.
Defined.

(** Live typing: [stop_stream] and [close] share one [try] block, so when
    [stop_stream] raises, [close] is never called on the stream; the handle
    is dropped all the same. *)
Theorem stop_stream_failure_skips_close
  (env : StopEnv) (s : AquaVoice.State) (st : nat) :
  AquaVoice.recording s = true ->
  AquaVoice.stream s = Some st ->
  stop_stream_ok env = false ->
  forall s',
    s' = AquaVoice.stop_recording env s
    \/ s' = AquaVoice.cancel_recording env s ->
    let issued := issued_since (AquaVoice.world s) (AquaVoice.world s') in
    In (StreamStop st false) issued
    /\ (forall st' ok, ~ In (StreamClose st' ok) issued)
    /\ AquaVoice.stream s' = None.
Proof.
  intros Hrec Hst Hss s' Hs' issued.
  assert (Hissued :
            exists tail,
              forallb quiet tail = true
              /\ issued
                 = teardown_trace env (AquaVoice.connection s) (Some st)
                     (AquaVoice.audio s) ++ tail
              /\ AquaVoice.stream s' = None).
  { subst issued. destruct Hs' as [-> | ->].
    - exists (if truthy (strip (join " " (AquaVoice.final_text s)))
              then [Pbcopy (strip (join " " (AquaVoice.final_text s)))]
              else []).
      split; [now destruct (truthy _)|].
      rewrite (stop_recording_run env s Hrec).
      unfold issued_since; simpl. now rewrite skipn_length_app, Hst.
    - exists (if truthy (AquaVoice.all_typed s)
              then Pbcopy (AquaVoice.all_typed s)
                   :: press_backspaces (String.length (AquaVoice.all_typed s))
              else []).
      split.
      { destruct (truthy _); [|reflexivity]. simpl.
        apply press_backspaces_quiet. }
      rewrite (cancel_recording_run env s Hrec).
      unfold issued_since; simpl. now rewrite skipn_length_app, Hst. }
  destruct Hissued as (tail & Hquiet & -> & Hnone).
  unfold teardown_trace. rewrite Hss.
  repeat split; try assumption.
  - apply in_or_app; left. apply in_or_app; right.
    apply in_or_app; left. now left.
  - intros st' ok Hin.
    apply in_app_or in Hin as [Hin | Hin].
    + destruct (AquaVoice.connection s), (AquaVoice.audio s);
        simpl in Hin; intuition discriminate.
    + rewrite forallb_forall in Hquiet.
      specialize (Hquiet _ Hin). discriminate Hquiet.
Qed.

Lemma stop_stream_failure_skips_close_witness :
  let s := AquaVoice.start_recording all_ok AquaVoice.init in
  let env :=
    {| finish_ok := true; stop_stream_ok := false; close_ok := true;
       terminate_ok := true |} in
  let s' := AquaVoice.stop_recording env s in
  AquaVoice.stream s = Some 2
  /\ AquaVoice.stream s' = None
  /\ open_streams (trace (AquaVoice.world s')) = [2].
Proof.
  destruct
    (stop_stream_failure_skips_close
       {| finish_ok := true; stop_stream_ok := false; close_ok := true;
          terminate_ok := true |}
       (AquaVoice.start_recording all_ok AquaVoice.init) 2
       eq_refl eq_refl eq_refl _ (or_introl eq_refl))
    as (_ & _ & Hnone).
  split; [reflexivity|]. split; [exact Hnone | reflexivity].
Defined.

(** On an idle session [start_recording] always empties the buffers, and
    it leaves the session recording exactly when every step succeeded.  In
    the menu-bar app there is one more way to end up recording: the queue
    processor thread is started outside the [try] block, so when that start
    raises, the exception leaves [recording] set. *)
Theorem recording_iff_start_succeeds (env : StartEnv) :
  (forall s : AquaVoice.State,
      AquaVoice.recording s = false ->
      let s' := AquaVoice.start_recording env s in
      AquaVoice.recording s' = start_succeeds env
      /\ AquaVoice.final_text s' = []
      /\ AquaVoice.last_interim s' = ""
      /\ AquaVoice.all_typed s' = "")
  /\ (forall s : AquaVoiceApp.State,
         AquaVoiceApp.recording s = false ->
         let s' := AquaVoiceApp.start_recording env s in
         AquaVoiceApp.recording s'
         = (negb (thread_start_ok env) || start_succeeds env)
         /\ AquaVoiceApp.final_text s' = []
         /\ AquaVoiceApp.all_typed s' = ""
         /\ AquaVoiceApp.transcript_queue s' = []).
Proof.
  destruct env as [w cs pa ao ts]. unfold start_succeeds. split.
  - intros [c r a st th ft li ty [tr nh]] Hrec; simpl in Hrec; subst r.
    destruct w, cs as [[|]|], pa, ao, ts; run_voice; repeat split.
  - intros [c r a st th ft ty q qt qr [tr nh]] Hrec; simpl in Hrec; subst r.
    destruct w, cs as [[|]|], pa, ao, ts; run_app; repeat split.
Qed.

Lemma recording_iff_start_succeeds_witness :
  AquaVoice.recording
    (AquaVoice.start_recording connection_refused AquaVoice.init) = false
  /\ AquaVoice.recording (AquaVoice.start_recording all_ok AquaVoice.init)
     = true.
Proof.
  destruct (recording_iff_start_succeeds connection_refused) as [H1 _].
  destruct (recording_iff_start_succeeds all_ok) as [H2 _].
  split; [apply (H1 AquaVoice.init eq_refl) | apply (H2 AquaVoice.init eq_refl)].
Defined.

(** Both callbacks ignore a payload without a result, without a channel or
    without alternatives; they read the transcript of the first alternative
    only, and live typing takes a result without [is_final] for an
    interim. *)
Theorem malformed_payloads_are_ignored :
  (forall (s : AquaVoice.State) (f : option bool),
      AquaVoice._on_transcript None s = s
      /\ AquaVoice._on_transcript
           (Some {| channel := None; is_final := f |}) s = s
      /\ AquaVoice._on_transcript
           (Some {| channel := Some {| alternatives := None |};
                    is_final := f |}) s = s
      /\ AquaVoice._on_transcript
           (Some {| channel := Some {| alternatives := Some [] |};
                    is_final := f |}) s = s
      /\ forall t others,
          AquaVoice._on_transcript
            (Some {| channel :=
                       Some {| alternatives :=
                                 Some ({| transcript := t |} :: others) |};
                     is_final := f |}) s
          = AquaVoice.apply s
              {| text := t;
                 final := match f with Some b => b | None => false end |})
  /\ (forall (s : AquaVoiceApp.State) (f : option bool),
         AquaVoiceApp._on_transcript None s = s
         /\ AquaVoiceApp._on_transcript
              (Some {| channel := None; is_final := f |}) s = s
         /\ AquaVoiceApp._on_transcript
              (Some {| channel := Some {| alternatives := None |};
                       is_final := f |}) s = s
         /\ AquaVoiceApp._on_transcript
              (Some {| channel := Some {| alternatives := Some [] |};
                       is_final := f |}) s = s
         /\ forall t others b,
             AquaVoiceApp._on_transcript
               (Some {| channel :=
                          Some {| alternatives :=
                                    Some ({| transcript := t |} :: others) |};
                        is_final := f |}) s
             = AquaVoiceApp._on_transcript
                 (payload {| text := t; final := b |}) s).
Proof.
  split; intros s f.
  - unfold AquaVoice.apply, AquaVoice._on_transcript, payload; simpl.
    destruct (AquaVoice.recording s); repeat split.
  - unfold AquaVoiceApp._on_transcript, payload; simpl.
    destruct (AquaVoiceApp.recording s); repeat split.
Qed.

(** * Further properties of the menu-bar app *)

Section AppQueue.

Import AquaVoiceApp.

Lemma callback_run (p : option Result) (s : State) :
  recording s = true ->
  _on_transcript p s
  = set_transcript_queue (transcript_queue s ++ carried_text p) s.
Proof.
  intros Hrec.
  destruct s as [c r a st th ft ty q qt qr w]; simpl in Hrec; subst r.
  unfold _on_transcript, carried_text, set_transcript_queue; simpl.
  destruct p as [[ch f]|]; [|now rewrite app_nil_r].
  destruct ch as [[alts]|]; [|now rewrite app_nil_r].
  destruct alts as [[|[t] rest]|]; simpl; try now rewrite app_nil_r.
  destruct t; simpl; now rewrite ?app_nil_r.
Qed.

Lemma net_typed_type_finals (tr : list effect) (texts : list string) :
  net_typed (tr ++ type_finals texts)
  = (net_typed tr ++ typed_finals texts)%string.
Proof.
  revert tr. induction texts as [|t texts IH]; intros tr; simpl.
  - now rewrite app_nil_r, append_nil_r.
  - change (KbType (t ++ " ")%string :: type_finals texts)
      with ([KbType (t ++ " ")%string] ++ type_finals texts).
    rewrite app_assoc, IH, net_typed_type. now rewrite !append_assoc.
Qed.

Lemma type_finals_keyboard (texts : list string) :
  keyboard_calls (type_finals texts) = type_finals texts
  /\ clipboard_writes (type_finals texts) = [].
Proof.
  induction texts as [|t texts [IH1 IH2]]; [now split|].
  split.
  - change (type_finals (t :: texts))
      with ([KbType (t ++ " ")%string] ++ type_finals texts).
    now rewrite keyboard_calls_app, IH1.
  - change (type_finals (t :: texts))
      with ([KbType (t ++ " ")%string] ++ type_finals texts).
    now rewrite clipboard_writes_app, IH2.
Qed.

Lemma typed_finals_app (a b : list string) :
  typed_finals (a ++ b) = (typed_finals a ++ typed_finals b)%string.
Proof.
  induction a as [|t a IH]; simpl; [reflexivity|].
  now rewrite IH, !append_assoc.
Qed.

(** The processor, loop turn after loop turn, types what is queued in
    queue order and empties the queue. *)
Lemma drain_run (s : State) :
  Nat.iter (List.length (transcript_queue s)) process_one s
  = set_final_text (final_text s ++ transcript_queue s)
      (set_all_typed
         (all_typed s ++ typed_finals (transcript_queue s))%string
         (set_world
            {| trace := trace (world s) ++ type_finals (transcript_queue s);
               next_handle := next_handle (world s) |}
            (set_transcript_queue [] s))).
Proof.
  destruct s as [c r a st th ft ty q qt qr [tr nh]]. simpl.
  revert ft ty tr. induction q as [|t q IH]; intros ft ty tr.
  - cbv [set_final_text set_all_typed set_world set_transcript_queue
           connection recording audio stream audio_thread final_text
           all_typed transcript_queue queue_processor_thread queue_running
           world trace next_handle List.length Nat.iter nat_rect
           typed_finals type_finals map].
    now rewrite !app_nil_r, append_nil_r.
  - change (List.length (t :: q)) with (S (List.length q)).
    rewrite Nat.iter_succ_r.
    replace (process_one
               {| connection := c; recording := r; audio := a; stream := st;
                  audio_thread := th; final_text := ft; all_typed := ty;
                  transcript_queue := t :: q; queue_processor_thread := qt;
                  queue_running := qr;
                  world := {| trace := tr; next_handle := nh |} |})
      with {| connection := c; recording := r; audio := a; stream := st;
              audio_thread := th; final_text := ft ++ [t];
              all_typed := (ty ++ (t ++ " "))%string;
              transcript_queue := q; queue_processor_thread := qt;
              queue_running := qr;
              world := {| trace := tr ++ [KbType (t ++ " ")%string];
                          next_handle := nh |} |}
      by reflexivity.
    rewrite IH.
    cbv [set_final_text set_all_typed set_world set_transcript_queue
           connection recording audio stream audio_thread final_text
           all_typed transcript_queue queue_processor_thread queue_running
           world trace next_handle].
    simpl typed_finals. simpl type_finals.
    now rewrite <- !app_assoc, !append_assoc.
Qed.

End AppQueue.

Section AppSchedule.

Import AquaVoiceApp.

Lemma app_run_shape (steps : list app_step) :
  forall s : State,
    recording s = true ->
    let s' := app_run steps s in
    recording s' = true
    /\ final_text s' ++ transcript_queue s'
       = (final_text s ++ transcript_queue s) ++ arrived steps
    /\ exists typed,
        final_text s' = final_text s ++ typed
        /\ all_typed s' = (all_typed s ++ typed_finals typed)%string
        /\ trace (world s') = trace (world s) ++ type_finals typed.
Proof.
  unfold app_run.
  induction steps as [|a steps IH]; intros s Hrec; simpl.
  - rewrite app_nil_r. repeat split; try assumption.
    exists []. simpl. now rewrite !app_nil_r, append_nil_r.
  - destruct a as [p|]; simpl.
    + rewrite (callback_run p s Hrec).
      destruct (IH (set_transcript_queue
                      (transcript_queue s ++ carried_text p) s) Hrec)
        as (Hr & Hq & typed & Hft & Hty & Htr).
      simpl in Hq, Hft, Hty, Htr.
      repeat split; try assumption.
      * now rewrite Hq, <- !app_assoc.
      * now exists typed.
    + destruct s as [c r ad st th ft ty q qt qr [tr nh]].
      simpl in Hrec; subst r.
      destruct q as [|t q].
      * change (process_one
                  {| connection := c; recording := true; audio := ad;
                     stream := st; audio_thread := th; final_text := ft;
                     all_typed := ty; transcript_queue := [];
                     queue_processor_thread := qt; queue_running := qr;
                     world := {| trace := tr; next_handle := nh |} |})
          with {| connection := c; recording := true; audio := ad;
                  stream := st; audio_thread := th; final_text := ft;
                  all_typed := ty; transcript_queue := [];
                  queue_processor_thread := qt; queue_running := qr;
                  world := {| trace := tr; next_handle := nh |} |}.
        destruct (IH _ (eq_refl : recording
                          {| connection := c; recording := true; audio := ad;
                             stream := st; audio_thread := th;
                             final_text := ft; all_typed := ty;
                             transcript_queue := [];
                             queue_processor_thread := qt;
                             queue_running := qr;
                             world := {| trace := tr; next_handle := nh |} |}
                        = true))
          as (Hr & Hq & typed & Hft & Hty & Htr).
        repeat split; try assumption. now exists typed.
      * change (process_one
                  {| connection := c; recording := true; audio := ad;
                     stream := st; audio_thread := th; final_text := ft;
                     all_typed := ty; transcript_queue := t :: q;
                     queue_processor_thread := qt; queue_running := qr;
                     world := {| trace := tr; next_handle := nh |} |})
          with {| connection := c; recording := true; audio := ad;
                  stream := st; audio_thread := th; final_text := ft ++ [t];
                  all_typed := (ty ++ (t ++ " "))%string;
                  transcript_queue := q;
                  queue_processor_thread := qt; queue_running := qr;
                  world := {| trace := tr ++ [KbType (t ++ " ")%string];
                              next_handle := nh |} |}.
        destruct (IH _ (eq_refl : recording
                          {| connection := c; recording := true; audio := ad;
                             stream := st; audio_thread := th;
                             final_text := ft ++ [t];
                             all_typed := (ty ++ (t ++ " "))%string;
                             transcript_queue := q;
                             queue_processor_thread := qt;
                             queue_running := qr;
                             world :=
                               {| trace := tr ++ [KbType (t ++ " ")%string];
                                  next_handle := nh |} |}
                        = true))
          as (Hr & Hq & typed & Hft & Hty & Htr).
        simpl in Hq, Hft, Hty, Htr.
        repeat split; try assumption.
        -- simpl. rewrite Hq. now rewrite <- !app_assoc.
        -- exists (t :: typed). simpl.
           rewrite Hft, Hty, Htr. now rewrite <- !app_assoc, !append_assoc.
Qed.

Lemma running_threads_teardown
  (f : thread_target) (tr : list effect) (env : StopEnv)
  (c st a : option nat) :
  running_threads f (tr ++ teardown_trace env c st a) = running_threads f tr.
Proof.
  unfold running_threads, teardown_trace. rewrite fold_left_app.
  destruct c, st, a, (stop_stream_ok env); reflexivity.
Qed.

Lemma app_teardown_run (env : StopEnv) (s : State) :
  terminate_audio env
    (close_stream env (close_connection env s))
  = set_audio None
      (set_stream None
         (set_connection None
            (set_world
               {| trace :=
                    trace (world s)
                    ++ teardown_trace env (connection s) (stream s) (audio s);
                  next_handle := next_handle (world s) |} s))).
Proof.
  destruct s as [c r a st th ft ty q qt qr [tr nh]].
  destruct env as [f ss cl te]. unfold teardown_trace.
  destruct c, st, a, ss; run_app; simpl;
    rewrite <- ?app_assoc, ?app_nil_r; reflexivity.
Qed.

Lemma join_run (s : State) (t : nat) :
  queue_processor_thread s = Some t ->
  is_alive t s = true ->
  join_queue_processor s
  = set_final_text (final_text s ++ transcript_queue s)
      (set_all_typed
         (all_typed s ++ typed_finals (transcript_queue s))%string
         (set_world
            {| trace :=
                 trace (world s) ++ type_finals (transcript_queue s)
                 ++ [ThreadExit t];
               next_handle := next_handle (world s) |}
            (set_transcript_queue [] s))).
Proof.
  intros Hqt Halive. unfold join_queue_processor.
  rewrite Hqt, Halive, drain_run.
  destruct s as [c r a st th ft ty q qt qr [tr nh]].
  cbv [emit emit_w set_final_text set_all_typed set_world
         set_transcript_queue
         connection recording audio stream audio_thread final_text
         all_typed transcript_queue queue_processor_thread queue_running
         world trace next_handle].
  now rewrite <- app_assoc.
Qed.

Lemma app_stop_run (env : StopEnv) (s : State) (t : nat) :
  recording s = true ->
  queue_processor_thread s = Some t ->
  is_alive t s = true ->
  let texts := final_text s ++ transcript_queue s in
  stop_recording env s
  = {| connection := None; recording := false; audio := None;
       stream := None; audio_thread := audio_thread s;
       final_text := texts;
       all_typed := (all_typed s ++ typed_finals (transcript_queue s))%string;
       transcript_queue := [];
       queue_processor_thread := Some t;
       queue_running := false;
       world :=
         {| trace :=
              trace (world s)
              ++ teardown_trace env (connection s) (stream s) (audio s)
              ++ type_finals (transcript_queue s)
              ++ [ThreadExit t]
              ++ (if truthy (strip (join " " texts))
                  then [Pbcopy (strip (join " " texts))] else []);
            next_handle := next_handle (world s) |} |}.
Proof.
  intros Hrec Hqt Halive texts.
  unfold stop_recording. rewrite Hrec. cbv beta iota zeta delta [negb].
  rewrite app_teardown_run.
  set (x := set_queue_running false _).
  assert (Hx1 : queue_processor_thread x = Some t) by exact Hqt.
  assert (Hx2 : is_alive t x = true).
  { unfold is_alive in *. subst x. simpl.
    now rewrite running_threads_teardown. }
  rewrite (join_run x t Hx1 Hx2). subst x texts.
  destruct s as [c r a st th ft ty q qt qr [tr nh]].
  simpl in Hrec, Hqt; subst r qt.
  cbv [set_recording set_connection set_stream set_audio set_world
         set_queue_running set_final_text set_all_typed
         set_transcript_queue emit emit_w copy_to_clipboard
         connection recording audio stream audio_thread final_text
         all_typed transcript_queue queue_processor_thread queue_running
         world trace next_handle].
  destruct (strip (join " " (ft ++ q))); simpl;
    rewrite <- ?app_assoc, ?app_nil_r; reflexivity.
Qed.

End AppSchedule.

Section AppCancel.

Import AquaVoiceApp.

Lemma app_cancel_run (env : StopEnv) (s : State) :
  recording s = true ->
  exists quiet_calls,
    keyboard_calls quiet_calls = []
    /\ clipboard_writes quiet_calls = []
    /\ trace (world (cancel_recording env s))
       = trace (world s) ++ quiet_calls
         ++ press_backspaces (String.length (all_typed s))
    /\ transcript_queue (cancel_recording env s) = []
    /\ final_text (cancel_recording env s) = final_text s
    /\ all_typed (cancel_recording env s) = all_typed s.
Proof.
  intros Hrec.
  exists (teardown_trace env (connection s) (stream s) (audio s)
          ++ match queue_processor_thread s with
             | Some t => if is_alive t s then [ThreadExit t] else []
             | None => []
             end).
  destruct (teardown_trace_silent env (connection s) (stream s) (audio s))
    as [Tkb Tclip].
  split; [|split].
  - rewrite keyboard_calls_app, Tkb.
    destruct (queue_processor_thread s) as [t|]; [|reflexivity].
    now destruct (is_alive t s).
  - rewrite clipboard_writes_app, Tclip.
    destruct (queue_processor_thread s) as [t|]; [|reflexivity].
    now destruct (is_alive t s).
  - unfold cancel_recording. rewrite Hrec. cbv beta iota zeta delta [negb].
    rewrite app_teardown_run.
    set (x := set_audio None _).
    assert (Hq : transcript_queue x = []) by reflexivity.
    assert (Halive : forall t, is_alive t x = is_alive t s).
    { intros t. unfold is_alive. subst x. simpl.
      now rewrite running_threads_teardown. }
    assert (Hjoin :
              join_queue_processor x
              = match queue_processor_thread s with
                | Some t => if is_alive t s then emit [ThreadExit t] x else x
                | None => x
                end).
    { unfold join_queue_processor.
      change (queue_processor_thread x) with (queue_processor_thread s).
      destruct (queue_processor_thread s) as [t|]; [|reflexivity].
      rewrite Halive, Hq. reflexivity. }
    rewrite Hjoin. subst x. clear Hjoin Halive Hq.
    destruct s as [c r a st th ft ty q qt qr [tr nh]].
    simpl in Hrec; subst r.
    cbv [set_recording set_connection set_stream set_audio set_world
           set_queue_running set_final_text set_all_typed
           set_transcript_queue emit emit_w
           connection recording audio stream audio_thread final_text
           all_typed transcript_queue queue_processor_thread queue_running
           world trace next_handle].
    destruct qt as [t|];
      [destruct (is_alive t _)|];
      destruct ty; simpl; rewrite <- ?app_assoc, ?app_nil_r;
      repeat split.
Qed.

End AppCancel.

(** One processor thread and a keyboard that works, as a schedule of
    callbacks and processor turns: the finalized segments followed by what
    is still queued are the texts handed to the callback, in arrival
    order, and the keyboard calls issued type exactly the finalized
    segments. *)
Lemma queue_keeps_arrival_order
  (s : AquaVoiceApp.State) (steps : list app_step) :
  AquaVoiceApp.recording s = true ->
  AquaVoiceApp.final_text s = [] ->
  AquaVoiceApp.all_typed s = "" ->
  AquaVoiceApp.transcript_queue s = [] ->
  let s' := app_run steps s in
  let issued := issued_since (AquaVoiceApp.world s) (AquaVoiceApp.world s') in
  AquaVoiceApp.final_text s' ++ AquaVoiceApp.transcript_queue s'
  = arrived steps
  /\ issued = type_finals (AquaVoiceApp.final_text s')
  /\ AquaVoiceApp.all_typed s' = typed_finals (AquaVoiceApp.final_text s')
  /\ AquaVoiceApp.all_typed s' = net_typed issued.
Proof.
  intros Hrec Hft Hty Hq s' issued.
  destruct (app_run_shape steps s Hrec) as (_ & Hall & typed & Hft' & Hty' & Htr).
  fold s' in Hall, Hft', Hty', Htr.
  rewrite Hft, Hq in Hall. rewrite Hft in Hft'. rewrite Hty in Hty'.
  simpl in Hall, Hft', Hty'.
  assert (Hissued : issued = type_finals typed).
  { subst issued. unfold issued_since. now rewrite Htr, skipn_length_app. }
  split; [exact Hall|].
  rewrite Hissued, Hft', Hty'. repeat split.
  symmetry. apply (net_typed_type_finals [] typed).
Qed.

Lemma quiet_no_threads (f : thread_target) (tr quiet_calls : list effect) :
  forallb quiet quiet_calls = true ->
  running_threads f (tr ++ quiet_calls) = running_threads f tr.
Proof.
  intros H. unfold running_threads. rewrite fold_left_app.
  generalize (fold_left
                (fun live e =>
                   match e with
                   | ThreadStart t g =>
                       match f, g with
                       | capture_audio, capture_audio
                       | process_transcript_queue, process_transcript_queue =>
                           live ++ [t]
                       | _, _ => live
                       end
                   | ThreadExit t => remove_id t live
                   | _ => live
                   end) tr []).
  induction quiet_calls as [|e l IH]; intros live; [reflexivity|].
  simpl in H. apply andb_true_iff in H as [He Hl].
  destruct e; try discriminate He; simpl; now apply IH.
Qed.

Lemma type_finals_quiet (texts : list string) :
  forallb quiet (type_finals texts) = true.
Proof. induction texts as [|t texts IH]; simpl; auto. Qed.

Lemma not_in_remove_id (t : nat) (l : list nat) :
  existsb (Nat.eqb t) (remove_id t l) = false.
Proof.
  unfold remove_id. induction l as [|x l IH]; simpl; [reflexivity|].
  destruct (t =? x) eqn:E; simpl; [exact IH|]. now rewrite E.
Qed.

(** [stop_recording] when the [join] is waited out and the keyboard
    works: the processor types what is still queued, in queue order,
    before the clipboard is written. *)
Lemma stop_flushes_the_queue
  (env : StopEnv) (s : AquaVoiceApp.State) (t : nat) :
  AquaVoiceApp.recording s = true ->
  AquaVoiceApp.queue_processor_thread s = Some t ->
  AquaVoiceApp.is_alive t s = true ->
  let s' := AquaVoiceApp.stop_recording env s in
  let issued := issued_since (AquaVoiceApp.world s) (AquaVoiceApp.world s') in
  let texts := AquaVoiceApp.final_text s ++ AquaVoiceApp.transcript_queue s in
  AquaVoiceApp.final_text s' = texts
  /\ AquaVoiceApp.transcript_queue s' = []
  /\ AquaVoiceApp.all_typed s'
     = (AquaVoiceApp.all_typed s
        ++ typed_finals (AquaVoiceApp.transcript_queue s))%string
  /\ keyboard_calls issued = type_finals (AquaVoiceApp.transcript_queue s)
  /\ clipboard_writes issued
     = (if truthy (strip (join " " texts))
        then [strip (join " " texts)] else [])
  /\ AquaVoiceApp.is_alive t s' = false.
Proof.
  intros Hrec Hqt Halive s' issued texts.
  subst issued s'. rewrite (app_stop_run env s t Hrec Hqt Halive).
  fold texts. cbv [AquaVoiceApp.final_text AquaVoiceApp.transcript_queue
                     AquaVoiceApp.all_typed AquaVoiceApp.world].
  fold (AquaVoiceApp.final_text s) (AquaVoiceApp.transcript_queue s)
    (AquaVoiceApp.all_typed s) (AquaVoiceApp.world s).
  unfold issued_since. cbv [trace]. fold (trace (AquaVoiceApp.world s)).
  rewrite skipn_length_app.
  destruct (teardown_trace_silent env (AquaVoiceApp.connection s)
              (AquaVoiceApp.stream s) (AquaVoiceApp.audio s)) as [Tkb Tclip].
  destruct (type_finals_keyboard (AquaVoiceApp.transcript_queue s))
    as [Fkb Fclip].
  rewrite !keyboard_calls_app, !clipboard_writes_app, Tkb, Tclip, Fkb, Fclip.
  repeat split.
  - destruct (truthy (strip (join " " texts))); simpl;
      now rewrite ?app_nil_r.
  - now destruct (truthy (strip (join " " texts))).
  - unfold AquaVoiceApp.is_alive. cbv [AquaVoiceApp.world trace].
    fold (AquaVoiceApp.world s) (trace (AquaVoiceApp.world s)).
    set (td := teardown_trace _ _ _ _).
    set (clip := if truthy (strip (join " " texts))
                 then [Pbcopy (strip (join " " texts))] else []).
    replace (trace (AquaVoiceApp.world s) ++ td
             ++ type_finals (AquaVoiceApp.transcript_queue s)
             ++ [ThreadExit t] ++ clip)
      with (((trace (AquaVoiceApp.world s) ++ td
              ++ type_finals (AquaVoiceApp.transcript_queue s))
             ++ [ThreadExit t]) ++ clip)
      by now rewrite <- !app_assoc.
    rewrite quiet_no_threads
      by (subst clip; now destruct (truthy (strip (join " " texts)))).
    unfold running_threads at 1. rewrite fold_left_app. simpl.
    apply not_in_remove_id.
Qed.

Lemma queue_order_shape (s : AquaVoiceApp.State) (steps : list app_step) :
  AquaVoiceApp.recording s = true ->
  AquaVoiceApp.final_text s = [] ->
  AquaVoiceApp.all_typed s = "" ->
  AquaVoiceApp.transcript_queue s = [] ->
  let s' := app_run steps s in
  AquaVoiceApp.recording s' = true
  /\ trace (AquaVoiceApp.world s')
     = trace (AquaVoiceApp.world s)
       ++ type_finals (AquaVoiceApp.final_text s')
  /\ AquaVoiceApp.all_typed s' = typed_finals (AquaVoiceApp.final_text s').
Proof.
  intros Hrec Hft Hty Hq s'.
  destruct (app_run_shape steps s Hrec)
    as (Hrec' & _ & typed & Hft' & Hty' & Htr).
  fold s' in Hrec', Hft', Hty', Htr.
  rewrite Hft in Hft'. rewrite Hty in Hty'. simpl in Hft', Hty'.
  now rewrite Hft', Hty'.
Qed.

Lemma net_typed_keyboard (tr : list effect) :
  net_typed tr = net_typed (keyboard_calls tr).
Proof.
  unfold net_typed. generalize "".
  induction tr as [|e tr IH]; intros doc; [reflexivity|].
  destruct e; simpl; apply IH.
Qed.

(** [cancel_recording] when the [join] is waited out and the keyboard
    works, after a schedule of callbacks and processor turns: what is
    queued is never typed and the keystrokes of the session net out to no
    text. *)
Lemma app_cancel_discards_queue_and_restores
  (env : StopEnv) (s : AquaVoiceApp.State) (steps : list app_step) :
  AquaVoiceApp.recording s = true ->
  AquaVoiceApp.final_text s = [] ->
  AquaVoiceApp.all_typed s = "" ->
  AquaVoiceApp.transcript_queue s = [] ->
  let s1 := app_run steps s in
  let s2 := AquaVoiceApp.cancel_recording env s1 in
  keyboard_calls (issued_since (AquaVoiceApp.world s1) (AquaVoiceApp.world s2))
  = press_backspaces (String.length (AquaVoiceApp.all_typed s1))
  /\ AquaVoiceApp.transcript_queue s2 = []
  /\ AquaVoiceApp.final_text s2 = AquaVoiceApp.final_text s1
  /\ net_typed (issued_since (AquaVoiceApp.world s) (AquaVoiceApp.world s2))
     = ""
  /\ clipboard_writes
       (issued_since (AquaVoiceApp.world s) (AquaVoiceApp.world s2)) = [].
Proof.
  intros Hrec Hft Hty Hq s1 s2.
  destruct (queue_order_shape s steps Hrec Hft Hty Hq)
    as (Hrec1 & Htr1 & Hty1).
  fold s1 in Hrec1, Htr1, Hty1.
  destruct (app_cancel_run env s1 Hrec1)
    as (calls & Ckb & Cclip & Htr2 & Hq2 & Hft2 & _).
  fold s2 in Htr2, Hq2, Hft2.
  destruct (type_finals_keyboard (AquaVoiceApp.final_text s1)) as [Fkb Fclip].
  unfold issued_since. rewrite Htr2, Htr1, skipn_length_app.
  rewrite <- app_assoc, skipn_length_app.
  rewrite !keyboard_calls_app, !clipboard_writes_app, Ckb, Cclip, Fclip,
    keyboard_calls_press, clipboard_writes_press.
  repeat split; try assumption.
  rewrite net_typed_keyboard, !keyboard_calls_app, Ckb, Fkb,
    keyboard_calls_press; simpl.
  rewrite net_typed_backspaces.
  change (type_finals (AquaVoiceApp.final_text s1))
    with ([] ++ type_finals (AquaVoiceApp.final_text s1)).
  rewrite net_typed_type_finals, Hty1.
  apply (iter_chop_append "" (typed_finals (AquaVoiceApp.final_text s1))).
Qed.

(** * Further properties of the hotkey listener *)

Ltac run_keys :=
  cbv beta iota zeta delta
    [Hotkey.step Hotkey.on_release Hotkey._handle_option_tap
     Hotkey.set_session Hotkey.set_last_option_tap
     Hotkey.set_option_tap_count Hotkey.session Hotkey.last_option_tap
     Hotkey.option_tap_count Hotkey.init Nat.add Nat.leb].

Section HotkeyFacts.

Variable time : Type.
Variable within_threshold : time -> time -> bool.

Lemma callback_is_apply (p : option Result) (s : AquaVoice.State) :
  AquaVoice._on_transcript p s = s
  \/ exists e, AquaVoice._on_transcript p s = AquaVoice.apply s e.
Proof.
  destruct p as [[ch f]|]; [|left; unfold AquaVoice._on_transcript;
                              now destruct (AquaVoice.recording s)].
  destruct ch as [[alts]|];
    [|left; unfold AquaVoice._on_transcript; simpl;
      now destruct (AquaVoice.recording s)].
  destruct alts as [[|[t] rest]|];
    try (left; unfold AquaVoice._on_transcript; simpl;
         now destruct (AquaVoice.recording s)).
  right.
  exists {| text := t;
            final := match f with Some b => b | None => false end |}.
  reflexivity.
Qed.

Lemma shape_apply (s : AquaVoice.State) (e : TranscriptEvent) :
  AquaVoice.all_typed s
  = (typed_finals (AquaVoice.final_text s) ++ AquaVoice.last_interim s)%string ->
  AquaVoice.all_typed (AquaVoice.apply s e)
  = (typed_finals (AquaVoice.final_text (AquaVoice.apply s e))
     ++ AquaVoice.last_interim (AquaVoice.apply s e))%string.
Proof.
  intros Hshape.
  destruct (AquaVoice.recording s) eqn:Hrec;
    [| now rewrite apply_dropped by (now left)].
  destruct (truthy (text e)) eqn:Htext;
    [| apply truthy_false in Htext; now rewrite apply_dropped by (now right)].
  rewrite (apply_typed s e Hrec Htext); simpl.
  assert (Hcut :
            (if truthy (AquaVoice.last_interim s)
             then slice_to_neg (String.length (AquaVoice.last_interim s))
                    (AquaVoice.all_typed s)
             else AquaVoice.all_typed s)
            = typed_finals (AquaVoice.final_text s)).
  { destruct (truthy (AquaVoice.last_interim s)) eqn:Hli.
    - rewrite Hshape. now apply slice_to_neg_append.
    - apply truthy_false in Hli. rewrite Hshape, Hli. apply append_nil_r. }
  rewrite Hcut. unfold typed_text. destruct (final e).
  - now rewrite typed_finals_snoc, append_nil_r.
  - reflexivity.
Qed.

Lemma buffers_after_stop (env : StopEnv) (s : AquaVoice.State) :
  AquaVoice.all_typed (AquaVoice.stop_recording env s) = AquaVoice.all_typed s
  /\ AquaVoice.final_text (AquaVoice.stop_recording env s)
     = AquaVoice.final_text s
  /\ AquaVoice.last_interim (AquaVoice.stop_recording env s)
     = AquaVoice.last_interim s.
Proof.
  destruct (AquaVoice.recording s) eqn:Hrec.
  - now rewrite stop_recording_run.
  - unfold AquaVoice.stop_recording. now rewrite Hrec.
Qed.

Lemma buffers_after_cancel (env : StopEnv) (s : AquaVoice.State) :
  AquaVoice.all_typed (AquaVoice.cancel_recording env s) = AquaVoice.all_typed s
  /\ AquaVoice.final_text (AquaVoice.cancel_recording env s)
     = AquaVoice.final_text s
  /\ AquaVoice.last_interim (AquaVoice.cancel_recording env s)
     = AquaVoice.last_interim s.
Proof.
  destruct (AquaVoice.recording s) eqn:Hrec.
  - now rewrite cancel_recording_run.
  - unfold AquaVoice.cancel_recording. now rewrite Hrec.
Qed.

Lemma buffers_after_start (env : StartEnv) (s : AquaVoice.State) :
  AquaVoice.recording s = false ->
  AquaVoice.all_typed (AquaVoice.start_recording env s) = ""
  /\ AquaVoice.final_text (AquaVoice.start_recording env s) = []
  /\ AquaVoice.last_interim (AquaVoice.start_recording env s) = "".
Proof.
  destruct env as [w cs pa ao ts].
  destruct s as [c r a st th ft li ty [tr nh]]; simpl; intros ->.
  destruct w, cs as [[|]|], pa, ao, ts; run_voice; repeat split.
Qed.

Lemma settled_step (l : Hotkey.Listener time) (i : Hotkey.input time) :
  Hotkey.settled time l ->
  Hotkey.settled time (Hotkey.step time within_threshold l i).
Proof.
  unfold Hotkey.settled. intros [Hcount Hshape].
  destruct l as [s last n]. revert Hcount Hshape. run_keys.
  intros -> Hshape.
  destruct i as [now key env senv | p]; run_keys.
  - destruct key.
    + destruct (AquaVoice.recording s) eqn:Hrec.
      * split; [reflexivity|].
        destruct (buffers_after_stop senv s) as (-> & -> & ->). exact Hshape.
      * destruct (within_threshold now last); split;
          try reflexivity; try exact Hshape.
        destruct (buffers_after_start env s Hrec) as (-> & -> & ->).
        reflexivity.
    + destruct (AquaVoice.recording s) eqn:Hrec;
        split; try reflexivity; try exact Hshape.
      destruct (buffers_after_cancel senv s) as (-> & -> & ->). exact Hshape.
    + now split.
  - split; [reflexivity|].
    destruct (callback_is_apply p s) as [-> | [e ->]]; [exact Hshape|].
    now apply shape_apply.
Qed.

Lemma settled_run (inputs : list (Hotkey.input time)) :
  forall l,
    Hotkey.settled time l ->
    Hotkey.settled time (Hotkey.run time within_threshold inputs l).
Proof.
  unfold Hotkey.run.
  induction inputs as [|i inputs IH]; intros l H; simpl; [exact H|].
  apply IH. now apply settled_step.
Qed.

Lemma settled_init (zero : time) :
  Hotkey.settled time (Hotkey.init time zero).
Proof. unfold Hotkey.settled. now split. Qed.

(** Whatever keys were released and whatever transcripts arrived since the
    program started, the tap counter is back at 0: a count of taps never
    carries over from one release of Right Option to the next. *)
Theorem tap_counter_rests_at_zero
  (zero : time) (inputs : list (Hotkey.input time)) :
  Hotkey.option_tap_count time
    (Hotkey.run time within_threshold inputs (Hotkey.init time zero)) = 0.
Proof.
  destruct (settled_run inputs _ (settled_init zero)) as [Hcount _].
  exact Hcount.
Qed.

(** What a release of Right Option does, in any state the program can
    reach: while recording it stops the session, whatever the timing;
    while idle it starts a session as soon as it comes within the
    threshold of the previous release of Right Option, with no further tap
    needed, and does nothing otherwise.  In all cases the release time is
    recorded and the counter is left at 0. *)
Theorem tap_decision
  (zero : time) (inputs : list (Hotkey.input time))
  (env : StartEnv) (senv : StopEnv) (now : time) :
  let l := Hotkey.run time within_threshold inputs (Hotkey.init time zero) in
  let l' := Hotkey._handle_option_tap time within_threshold env senv now l in
  Hotkey.session time l'
  = (if AquaVoice.recording (Hotkey.session time l)
     then AquaVoice.stop_recording senv (Hotkey.session time l)
     else if within_threshold now (Hotkey.last_option_tap time l)
          then AquaVoice.start_recording env (Hotkey.session time l)
          else Hotkey.session time l)
  /\ Hotkey.last_option_tap time l' = now
  /\ Hotkey.option_tap_count time l' = 0.
Proof.
  intros l l'.
  destruct (settled_run inputs _ (settled_init zero)) as [Hcount _].
  fold l in Hcount. subst l'. clearbody l.
  destruct l as [s last n]. revert Hcount. run_keys. intros ->.
  destruct (AquaVoice.recording s); [now repeat split|].
  destruct (within_threshold now last); now repeat split.
Qed.

(** A release of Right Option that stops a recording also arms the
    double-tap test: a second release within the threshold of it starts a
    new session at once. *)
Theorem quick_tap_after_stop_restarts
  (zero : time) (inputs : list (Hotkey.input time))
  (env1 env2 : StartEnv) (senv1 senv2 : StopEnv) (t1 t2 : time) :
  let l := Hotkey.run time within_threshold inputs (Hotkey.init time zero) in
  AquaVoice.recording (Hotkey.session time l) = true ->
  within_threshold t2 t1 = true ->
  let l2 := Hotkey._handle_option_tap time within_threshold env2 senv2 t2
      (Hotkey._handle_option_tap time within_threshold env1 senv1 t1 l) in
  Hotkey.session time l2
  = AquaVoice.start_recording env2
      (AquaVoice.stop_recording senv1 (Hotkey.session time l))
  /\ AquaVoice.recording (Hotkey.session time l2) = start_succeeds env2.
Proof.
  intros l Hrec Hquick l2.
  assert (Hsession :
            Hotkey.session time l2
            = AquaVoice.start_recording env2
                (AquaVoice.stop_recording senv1 (Hotkey.session time l))).
  { subst l2. clearbody l. destruct l as [s last n].
    revert Hrec. run_keys. intros ->.
    now rewrite recording_after_stop, Hquick. }
  split; [exact Hsession|]. rewrite Hsession.
  pose proof (recording_after_stop senv1 (Hotkey.session time l)) as Hidle.
  revert Hidle.
  generalize (AquaVoice.stop_recording senv1 (Hotkey.session time l)).
  intros s Hidle.
  destruct env2 as [w cs pa ao ts]. unfold start_succeeds.
  destruct s as [c r a st th ft li ty [tr nh]]; simpl in Hidle; subst r.
  destruct w, cs as [[|]|], pa, ao, ts; run_voice; reflexivity.
Qed.

End HotkeyFacts.

Lemma quick_tap_after_stop_restarts_witness :
  let within := fun now last : nat => now - last <? 35 in
  let l :=
    Hotkey.run nat within
      [Hotkey.Release nat 100 Hotkey.alt_r all_ok clean_stop;
       Hotkey.Release nat 120 Hotkey.alt_r all_ok clean_stop]
      (Hotkey.init nat 0) in
  let l2 :=
    Hotkey._handle_option_tap nat within all_ok clean_stop 510
      (Hotkey._handle_option_tap nat within all_ok clean_stop 500 l) in
  AquaVoice.recording (Hotkey.session nat l) = true
  /\ AquaVoice.recording (Hotkey.session nat l2) = true.
Proof.
  split; [reflexivity|].
  apply
    (quick_tap_after_stop_restarts nat (fun now last => now - last <? 35) 0
       [Hotkey.Release nat 100 Hotkey.alt_r all_ok clean_stop;
        Hotkey.Release nat 120 Hotkey.alt_r all_ok clean_stop]
       all_ok all_ok clean_stop clean_stop 500 510);
    reflexivity.
Defined.

(** * Further properties of the environment file loader *)

Section StripFacts.

Import DotEnv.

Lemma length_lstrip (s : string) : String.length (lstrip s) <= String.length s.
Proof.
  induction s as [|c s IH]; simpl; [lia|].
  destruct (isspace c); simpl; lia.
Qed.

Lemma length_rstrip (s : string) : String.length (rstrip s) <= String.length s.
Proof.
  induction s as [|c s IH]; simpl; [lia|].
  destruct (rstrip s); [destruct (isspace c)|]; simpl in *; lia.
Qed.

Lemma lstrip_fixed_first (c : ascii) (s : string) :
  lstrip (String c s) = String c s -> isspace c = false.
Proof.
  simpl. destruct (isspace c); [|reflexivity].
  intros H. pose proof (length_lstrip s) as Hlen.
  rewrite H in Hlen. simpl in Hlen. lia.
Qed.

(** A text that [strip] leaves alone is left alone by both halves. *)
Lemma strip_fixed (s : string) :
  strip s = s -> lstrip s = s /\ rstrip s = s.
Proof.
  unfold strip. intros H.
  assert (Hl : lstrip s = s).
  { destruct s as [|c s]; [reflexivity|]. simpl in *.
    destruct (isspace c); [|reflexivity].
    pose proof (length_rstrip (lstrip s)) as H1.
    pose proof (length_lstrip s) as H2.
    rewrite H in H1. simpl in H1. lia. }
  split; [exact Hl|]. now rewrite Hl in H.
Qed.

Lemma lstrip_all_space (ws s : string) :
  all_space ws = true -> lstrip (ws ++ s) = lstrip s.
Proof.
  induction ws as [|c ws IH]; simpl; [reflexivity|].
  intros H. apply andb_true_iff in H as [Hc Hws]. rewrite Hc. now apply IH.
Qed.

Lemma lstrip_append (a b : string) :
  a <> "" -> lstrip a = a -> lstrip (a ++ b) = (a ++ b)%string.
Proof.
  destruct a as [|c a]; [congruence|]. intros _ H.
  apply lstrip_fixed_first in H. simpl. now rewrite H.
Qed.

Lemma rstrip_all_space (ws : string) : all_space ws = true -> rstrip ws = "".
Proof.
  induction ws as [|c ws IH]; simpl; [reflexivity|].
  intros H. apply andb_true_iff in H as [Hc Hws].
  now rewrite (IH Hws), Hc.
Qed.

Lemma rstrip_append_space (s ws : string) :
  all_space ws = true -> rstrip (s ++ ws) = rstrip s.
Proof.
  intros H. induction s as [|c s IH]; simpl.
  - now apply rstrip_all_space.
  - now rewrite IH.
Qed.

Lemma rstrip_append_fixed (a b : string) :
  b <> "" -> rstrip b = b -> rstrip (a ++ b) = (a ++ b)%string.
Proof.
  intros Hne Hb. induction a as [|c a IH]; simpl; [exact Hb|].
  rewrite IH. destruct (a ++ b)%string eqn:E; [|reflexivity].
  destruct a; simpl in E; [congruence | discriminate].
Qed.

Lemma contains_append (c : ascii) (a b : string) :
  contains c (a ++ b) = contains c a || contains c b.
Proof.
  induction a as [|x a IH]; simpl; [reflexivity|].
  now rewrite IH, orb_assoc.
Qed.

Lemma contains_all_space (c : ascii) (ws : string) :
  isspace c = false -> all_space ws = true -> contains c ws = false.
Proof.
  intros Hc. induction ws as [|x ws IH]; simpl; [reflexivity|].
  intros H. apply andb_true_iff in H as [Hx Hws].
  rewrite (IH Hws), orb_false_r.
  destruct (Ascii.eqb_spec x c) as [->|]; [congruence | reflexivity].
Qed.

Lemma split_once_append (c : ascii) (a b : string) :
  contains c a = false ->
  split_once c (a ++ String c b) = (a, b).
Proof.
  induction a as [|x a IH]; simpl.
  - now rewrite Ascii.eqb_refl.
  - intros H. apply orb_false_iff in H as [Hx Ha].
    now rewrite Hx, (IH Ha).
Qed.


Lemma rstrip_first (c : ascii) (s : string) :
  isspace c = false -> exists r, rstrip (String c s) = String c r.
Proof.
  intros Hc. simpl. destruct (rstrip s) as [|x r].
  - rewrite Hc. now exists "".
  - now exists (String x r).
Qed.

Lemma contains_lstrip (c : ascii) (s : string) :
  contains c s = false -> contains c (lstrip s) = false.
Proof.
  induction s as [|x s IH]; simpl; [reflexivity|].
  intros H. apply orb_false_iff in H as [Hx Hs].
  destruct (isspace x); [now apply IH|]. simpl. now rewrite Hx, Hs.
Qed.

Lemma contains_rstrip (c : ascii) (s : string) :
  contains c s = false -> contains c (rstrip s) = false.
Proof.
  induction s as [|x s IH]; simpl; [reflexivity|].
  intros H. apply orb_false_iff in H as [Hx Hs].
  specialize (IH Hs). destruct (rstrip s) as [|y r].
  - destruct (isspace x); simpl; [reflexivity|]. now rewrite Hx.
  - simpl in *. now rewrite Hx, IH.
Qed.

Lemma strip_all_space (ws : string) : all_space ws = true -> strip ws = "".
Proof.
  intros H. unfold strip.
  rewrite <- (append_nil_r ws), (lstrip_all_space ws "" H). reflexivity.
Qed.

(** The stripped form of a decorated assignment. *)
Lemma strip_assignment (ws1 key ws2 ws3 value ws4 : string) :
  all_space ws1 = true -> all_space ws3 = true -> all_space ws4 = true ->
  key <> "" -> strip key = key -> strip value = value ->
  strip (ws1 ++ key ++ ws2 ++ "=" ++ ws3 ++ value ++ ws4)
  = (key ++ ws2 ++ "=" ++ (if truthy value then ws3 ++ value else ""))%string.
Proof.
  intros H1 H3 H4 Hne Hkey Hvalue.
  apply strip_fixed in Hkey as [Hlk _].
  apply strip_fixed in Hvalue as [_ Hrv].
  unfold strip. rewrite (lstrip_all_space _ _ H1), (lstrip_append _ _ Hne Hlk).
  destruct value as [|c value]; cbn [truthy].
  - change (key ++ ws2 ++ "=" ++ ws3 ++ "" ++ ws4)%string
      with (key ++ ws2 ++ "=" ++ ws3 ++ ws4)%string.
    replace (key ++ ws2 ++ "=" ++ ws3 ++ ws4)%string
      with ((key ++ ws2 ++ "=") ++ (ws3 ++ ws4))%string
      by now rewrite !append_assoc.
    rewrite rstrip_append_space.
    + change ("=" ++ "")%string with "=".
      rewrite <- (append_assoc key ws2 "=").
      now apply rstrip_append_fixed.
    + clear - H3 H4. induction ws3 as [|x ws3 IH]; simpl in *; [exact H4|].
      apply andb_true_iff in H3 as [Hx H3]. now rewrite Hx, IH.
  - replace (key ++ ws2 ++ "=" ++ ws3 ++ String c value ++ ws4)%string
      with ((key ++ ws2 ++ "=" ++ ws3 ++ String c value) ++ ws4)%string
      by now rewrite !append_assoc.
    rewrite (rstrip_append_space _ _ H4).
    replace (key ++ ws2 ++ "=" ++ ws3 ++ String c value)%string
      with ((key ++ ws2 ++ "=" ++ ws3) ++ String c value)%string
      by now rewrite !append_assoc.
    now apply rstrip_append_fixed.
Qed.


Lemma isspace_equals : isspace "=" = false.
Proof. reflexivity. Qed.

(** Reading back a written assignment: a name and a value that carry no
    outer whitespace, the name non-empty, free of [=] and not starting a
    comment, are recovered from [name=value] whatever whitespace surrounds
    the line, the name and the value; the value may itself contain [=]. *)
Theorem env_line_round_trip (ws1 key ws2 ws3 value ws4 : string) :
  all_space ws1 = true -> all_space ws2 = true ->
  all_space ws3 = true -> all_space ws4 = true ->
  key <> "" -> strip key = key -> strip value = value ->
  contains "=" key = false -> startswith "#" key = false ->
  parse_env_line (ws1 ++ key ++ ws2 ++ "=" ++ ws3 ++ value ++ ws4)
  = Some (key, value).
Proof.
  intros H1 H2 H3 H4 Hne Hkey Hvalue Heq Hhash.
  unfold parse_env_line.
  rewrite (strip_assignment _ _ _ _ _ _ H1 H3 H4 Hne Hkey Hvalue).
  set (rest := if truthy value then (ws3 ++ value)%string else "").
  assert (Hrest : strip rest = value).
  { subst rest. destruct value as [|c value]; [reflexivity|]. cbn [truthy].
    unfold strip. rewrite (lstrip_all_space _ _ H3). exact Hvalue. }
  assert (Hname : strip (key ++ ws2) = key).
  { apply strip_fixed in Hkey as [Hl Hr]. unfold strip.
    rewrite (lstrip_append _ _ Hne Hl), (rstrip_append_space _ _ H2).
    exact Hr. }
  assert (Hsplit :
    split_once "=" (key ++ ws2 ++ "=" ++ rest) = ((key ++ ws2)%string, rest)).
  { rewrite <- append_assoc. apply split_once_append.
    rewrite contains_append, Heq.
    now rewrite (contains_all_space _ _ isspace_equals H2). }
  assert (Hcontains : contains "=" (key ++ ws2 ++ "=" ++ rest) = true).
  { rewrite !contains_append. simpl. now rewrite !orb_true_r. }
  rewrite Hsplit, Hcontains, Hname, Hrest.
  destruct key as [|c key]; [congruence|].
  simpl in Hhash |- *. now rewrite Hhash.
Qed.

Lemma env_line_round_trip_witness :
  parse_env_line
    (" " ++ "DEEPGRAM_API_KEY" ++ " " ++ "=" ++ "  " ++ "abc=def" ++ " ")
  = Some ("DEEPGRAM_API_KEY", "abc=def").
Proof.
  apply (env_line_round_trip " " "DEEPGRAM_API_KEY" " " "  " "abc=def" " ");
    try reflexivity.
  discriminate.
Defined.

(** Lines that assign nothing: a line of whitespace only, a line whose
    first character after the leading whitespace is [#] (whatever follows,
    an assignment included), and a line without [=]. *)
Theorem skipped_lines (line : string) :
  all_space line = true
  \/ (exists ws rest,
        all_space ws = true /\ line = (ws ++ String "#" rest)%string)
  \/ contains "=" line = false ->
  parse_env_line line = None.
Proof.
  unfold parse_env_line. intros [H | [(ws & rest & Hws & ->) | H]].
  - now rewrite (strip_all_space _ H).
  - unfold strip. rewrite (lstrip_all_space _ _ Hws).
    change (lstrip (String "#" rest)) with (String "#" rest).
    destruct (rstrip_first "#" rest eq_refl) as [r ->]. reflexivity.
  - unfold strip.
    rewrite (contains_rstrip _ _ (contains_lstrip _ _ H)).
    now rewrite andb_false_r.
Qed.

Lemma skipped_lines_witness :
  parse_env_line "   # DEEPGRAM_API_KEY=abc" = None.
Proof.
  apply skipped_lines. right. left.
  exists "   ", " DEEPGRAM_API_KEY=abc". split; reflexivity.
Defined.


End StripFacts.

Section LoadFacts.

Import DotEnv.

Lemma load_line_other (k line : string) (e : environ) :
  assigns k line = false -> snd (load_line line e) k = e k.
Proof.
  unfold assigns, load_line.
  destruct (parse_env_line line) as [[key value]|]; [|reflexivity].
  intros H. unfold setitem.
  destruct (putenv_accepts key value); [|reflexivity].
  cbn. now rewrite String.eqb_sym, H.
Qed.

Lemma load_line_assigned (k v line : string) (e e' : environ) :
  parse_env_line line = Some (k, v) ->
  load_line line e = (Some tt, e') -> e' k = Some v.
Proof.
  unfold load_line. intros ->. unfold setitem.
  destruct (putenv_accepts k v); cbn; [|discriminate].
  intros [= <-]. now rewrite String.eqb_refl.
Qed.

Lemma load_lines_other (k : string) (lines : list string) (e : environ) :
  forallb (fun line => negb (assigns k line)) lines = true ->
  snd (load_lines lines e) k = e k.
Proof.
  revert e. induction lines as [|line rest IH]; intros e; [reflexivity|].
  cbn [forallb load_lines]. intros H. apply andb_true_iff in H as [Hl Hrest].
  apply negb_true_iff in Hl. unfold bind.
  pose proof (load_line_other k line e Hl) as Hstep.
  destruct (load_line line e) as [[[]|] e1]; cbn [snd] in *.
  - now rewrite (IH e1 Hrest).
  - exact Hstep.
Qed.

Lemma load_lines_app (l1 l2 : list string) (e e' : environ) :
  load_lines (l1 ++ l2) e = (Some tt, e') ->
  exists e1,
    load_lines l1 e = (Some tt, e1) /\ load_lines l2 e1 = (Some tt, e').
Proof.
  revert e. induction l1 as [|line l1 IH]; intros e; cbn [app load_lines].
  - intros H. now exists e.
  - unfold bind. destruct (load_line line e) as [[[]|] e0]; [|discriminate].
    apply IH.
Qed.


Lemma rstrip_cons (c : ascii) (s : string) :
  rstrip (String c s)
  = match rstrip s with
    | EmptyString => if isspace c then EmptyString else String c EmptyString
    | r => String c r
    end.
Proof. reflexivity. Qed.

Lemma rstrip_idempotent (s : string) : rstrip (rstrip s) = rstrip s.
Proof.
  induction s as [|c s IH]; [reflexivity|]. rewrite rstrip_cons.
  destruct (rstrip s) as [|y r].
  - destruct (isspace c) eqn:Hc; [reflexivity|]. simpl. now rewrite Hc.
  - now rewrite rstrip_cons, IH.
Qed.

Lemma lstrip_idempotent (s : string) : lstrip (lstrip s) = lstrip s.
Proof.
  induction s as [|c s IH]; [reflexivity|]. simpl.
  destruct (isspace c) eqn:Hc; [exact IH|]. simpl. now rewrite Hc.
Qed.

Lemma lstrip_rstrip (s : string) :
  lstrip s = s -> lstrip (rstrip s) = rstrip s.
Proof.
  destruct s as [|c s]; [reflexivity|]. intros H.
  apply lstrip_fixed_first in H.
  destruct (rstrip_first c s H) as [r ->]. simpl. now rewrite H.
Qed.

Lemma strip_idempotent (s : string) : strip (strip s) = strip s.
Proof.
  unfold strip.
  now rewrite (lstrip_rstrip _ (lstrip_idempotent s)), rstrip_idempotent.
Qed.

Lemma split_once_before (c : ascii) (s : string) :
  contains c (fst (split_once c s)) = false.
Proof.
  induction s as [|x s IH]; [reflexivity|]. simpl.
  destruct (Ascii.eqb x c) eqn:E; [reflexivity|].
  destruct (split_once c s) as [before after]. simpl in *. now rewrite E, IH.
Qed.

Lemma split_once_join (c : ascii) (s : string) :
  contains c s = true ->
  s = (fst (split_once c s) ++ String c (snd (split_once c s)))%string.
Proof.
  induction s as [|x s IH]; [discriminate|]. simpl.
  destruct (Ascii.eqb_spec x c) as [->|Hne]; [reflexivity|].
  simpl. intros H. specialize (IH H).
  destruct (split_once c s) as [before after]. simpl in *. now rewrite <- IH.
Qed.

(** What a line can assign: the name and the value carry no outer
    whitespace, the name has no [=] in it, and the stripped line is the
    name and the value around its first [=], up to whitespace next to
    that [=]. *)
Theorem parsed_assignment_shape (line key value : string) :
  parse_env_line line = Some (key, value) ->
  strip key = key /\ strip value = value /\ contains "=" key = false
  /\ exists before after,
       strip line = (before ++ "=" ++ after)%string
       /\ contains "=" before = false
       /\ key = strip before /\ value = strip after.
Proof.
  unfold parse_env_line.
  destruct (truthy (strip line) && negb (startswith "#" (strip line))) ;
    [|discriminate].
  destruct (contains "=" (strip line)) eqn:Hc; [|discriminate].
  cbn [andb].
  pose proof (split_once_before "=" (strip line)) as Hb.
  pose proof (split_once_join "=" (strip line) Hc) as Hj.
  destruct (split_once "=" (strip line)) as [before after].
  cbn [fst snd] in *. intros [= <- <-].
  repeat split; try apply strip_idempotent.
  - unfold strip. now apply contains_rstrip, contains_lstrip.
  - exists before, after. now repeat split.
Qed.

Lemma parsed_assignment_shape_witness :
  strip "A B" = "A B" /\ strip "c = d" = "c = d"
  /\ contains "=" "A B" = false
  /\ exists before after,
       strip "  A B = c = d  " = (before ++ "=" ++ after)%string
       /\ contains "=" before = false
       /\ "A B" = strip before /\ "c = d" = strip after.
Proof.
  apply (parsed_assignment_shape "  A B = c = d  " "A B" "c = d").
  reflexivity.
Defined.

(** The last line that assigns a name decides its value: when [load_env]
    returns, a name assigned by a line that no later line of the file
    re-assigns holds that line's value, and the result is [True]. *)
Theorem last_assignment_wins
  (frozen : bool) (exists_ : location -> bool)
  (read : location -> option (list string)) (loc : location)
  (before after : list string) (line k v : string)
  (e e' : environ) (b : bool) :
  find_env frozen exists_ = Some loc ->
  read loc = Some (before ++ line :: after) ->
  parse_env_line line = Some (k, v) ->
  forallb (fun l => negb (assigns k l)) after = true ->
  load_env frozen exists_ read e = (Some b, e') ->
  b = true /\ e' k = Some v.
Proof.
  intros Hfind Hread Hline Hafter. unfold load_env.
  rewrite Hfind, Hread. unfold bind, ret.
  destruct (load_lines (before ++ line :: after) e) as [[[]|] e2] eqn:Hrun;
    [|discriminate].
  intros [= <- <-]. split; [reflexivity|].
  apply load_lines_app in Hrun as (e1 & _ & Hrun).
  cbn [load_lines] in Hrun. unfold bind in Hrun.
  destruct (load_line line e1) as [[[]|] e0] eqn:Hstep; [|discriminate].
  pose proof (load_lines_other k after e0 Hafter) as Hkeep.
  rewrite Hrun in Hkeep. cbn [snd] in Hkeep. rewrite Hkeep.
  exact (load_line_assigned k v line e1 e0 Hline Hstep).
Qed.

Lemma last_assignment_wins_witness :
  let exists_ := fun loc =>
    match loc with home_project | working_dir => true | _ => false end in
  let read := fun loc =>
    match loc with
    | home_project =>
        Some ["# keys"; "DEEPGRAM_API_KEY=old"; ""; "DEEPGRAM_API_KEY = new";
              "OTHER=1"]
    | working_dir => Some ["DEEPGRAM_API_KEY=shadowed"]
    | _ => None
    end in
  let e' := snd (load_env false exists_ read (fun _ => None)) in
  true = true /\ e' "DEEPGRAM_API_KEY" = Some "new".
Proof.
  intros exists_ read e'.
  apply (last_assignment_wins false exists_ read home_project
           ["# keys"; "DEEPGRAM_API_KEY=old"; ""] ["OTHER=1"]
           "DEEPGRAM_API_KEY = new" "DEEPGRAM_API_KEY" "new"
           (fun _ => None) e' true); reflexivity.
Defined.

(** [load_env] touches only the names its file assigns: whether it returns
    or raises half-way, a name that no line of the file it found assigns
    keeps the value it had, and stays unset if it was unset. *)
Theorem unassigned_names_keep_value
  (frozen : bool) (exists_ : location -> bool)
  (read : location -> option (list string)) (k : string) (e : environ) :
  (forall loc lines,
     find_env frozen exists_ = Some loc -> read loc = Some lines ->
     forallb (fun l => negb (assigns k l)) lines = true) ->
  snd (load_env frozen exists_ read e) k = e k.
Proof.
  intros H. unfold load_env.
  destruct (find_env frozen exists_) as [loc|]; [|reflexivity].
  destruct (read loc) as [lines|] eqn:Hread; [|reflexivity].
  specialize (H loc lines eq_refl Hread). unfold bind, ret.
  pose proof (load_lines_other k lines e H) as Hkeep.
  destruct (load_lines lines e) as [[[]|] e1]; exact Hkeep.
Qed.

Lemma unassigned_names_keep_value_witness :
  let exists_ := fun loc =>
    match loc with script_dir => true | _ => false end in
  let read := fun loc =>
    match loc with
    | script_dir => Some ["A=1"; "=x"; "B=2"]
    | _ => None
    end in
  let e := fun k => if String.eqb k "PATH" then Some "/usr/bin" else None in
  fst (load_env false exists_ read e) = None
  /\ snd (load_env false exists_ read e) "PATH" = e "PATH".
Proof.
  intros exists_ read e. split; [reflexivity|].
  apply (unassigned_names_keep_value false exists_ read "PATH" e).
  intros loc lines Hfind Hread.
  vm_compute in Hfind. injection Hfind as <-.
  vm_compute in Hread. injection Hread as <-. reflexivity.
Defined.


Lemma load_lines_raise (l1 l2 : list string) (line : string)
  (e e1 : environ) :
  load_lines l1 e = (Some tt, e1) ->
  load_line line e1 = (None, e1) ->
  load_lines (l1 ++ line :: l2) e = (None, e1).
Proof.
  revert e. induction l1 as [|x l1 IH]; intros e; cbn [app load_lines].
  - intros [= <-] H. unfold bind. now rewrite H.
  - unfold bind. destruct (load_line x e) as [[[]|] e0]; [|discriminate].
    apply IH.
Qed.

(** A line whose first non-blank character is [=] has an empty name, which
    [os.environ] refuses: [load_env] raises there, the assignments of the
    lines before it stay in place and the lines after it are not read. *)
Theorem nameless_assignment_aborts
  (frozen : bool) (exists_ : location -> bool)
  (read : location -> option (list string)) (loc : location)
  (before after : list string) (ws rest : string) (e e1 : environ) :
  find_env frozen exists_ = Some loc ->
  read loc = Some (before ++ (ws ++ String "=" rest)%string :: after) ->
  all_space ws = true ->
  load_lines before e = (Some tt, e1) ->
  load_env frozen exists_ read e = (None, e1).
Proof.
  intros Hfind Hread Hws Hbefore. unfold load_env.
  rewrite Hfind, Hread. unfold bind.
  rewrite (load_lines_raise before after _ e e1 Hbefore); [reflexivity|].
  unfold load_line, parse_env_line, strip.
  rewrite (lstrip_all_space _ _ Hws).
  change (lstrip (String "=" rest)) with (String "=" rest).
  destruct (rstrip_first "=" rest eq_refl) as [r ->]. reflexivity.
Qed.

Lemma nameless_assignment_aborts_witness :
  let exists_ := fun loc =>
    match loc with script_dir => true | _ => false end in
  let read := fun loc =>
    match loc with
    | script_dir => Some ["A=1"; " =x"; "B=2"]
    | _ => None
    end in
  let e1 := fun k => if String.eqb k "A" then Some "1" else None in
  load_env false exists_ read (fun _ => None) = (None, e1).
Proof.
  intros exists_ read e1.
  apply (nameless_assignment_aborts false exists_ read script_dir
           ["A=1"] ["B=2"] " " "x" (fun _ => None) e1); reflexivity.
Defined.

(** [load_env] answers [False] exactly when none of the places it looks at
    holds a file, and then the environment is as it was. *)
Theorem no_env_file
  (frozen : bool) (exists_ : location -> bool)
  (read : location -> option (list string)) (e : environ) :
  (fst (load_env frozen exists_ read e) = Some false
   <-> forallb (fun loc => negb (exists_ loc)) (locations frozen) = true)
  /\ (fst (load_env frozen exists_ read e) = Some false ->
      snd (load_env frozen exists_ read e) = e).
Proof.
  unfold load_env, find_env.
  destruct (find exists_ (locations frozen)) as [loc|] eqn:Hfind.
  - assert (Hno : fst
        (match read loc with
         | Some lines => bind (load_lines lines) (fun _ => ret true)
         | None => raise
         end e) <> Some false).
    { destruct (read loc) as [lines|]; [|discriminate].
      unfold bind, ret. destruct (load_lines lines e) as [[[]|] e1];
        discriminate. }
    split; [split|]; intros H; try contradiction.
    apply find_some in Hfind as [Hin Hex].
    rewrite forallb_forall in H. specialize (H loc Hin).
    now rewrite Hex in H.
  - split; [split|]; try reflexivity. intros _.
    apply forallb_forall. intros loc Hin.
    now rewrite (find_none _ _ Hfind loc Hin).
Qed.

(** The order in which [find_env] looks: the bundle's file is returned
    exactly when the program is frozen and that file exists, and the
    working directory's file only when no place before it has one. *)
Theorem find_env_precedence (frozen : bool) (exists_ : location -> bool) :
  (find_env frozen exists_ = Some bundle_resources
   <-> frozen = true /\ exists_ bundle_resources = true)
  /\ (find_env frozen exists_ = Some working_dir
      <-> exists_ working_dir = true
          /\ exists_ script_dir = false /\ exists_ home_project = false
          /\ (frozen = true -> exists_ bundle_resources = false)).
Proof.
  unfold find_env, locations.
  destruct frozen; cbn [find];
    destruct (exists_ bundle_resources), (exists_ script_dir),
      (exists_ home_project), (exists_ working_dir);
    intuition (try discriminate; try congruence).
Qed.

End LoadFacts.

(** * The two front ends side by side *)

Section FrontEnds.

Lemma last_interim_finals (es : list TranscriptEvent) (s : AquaVoice.State) :
  forallb final es = true ->
  AquaVoice.last_interim s = "" ->
  AquaVoice.last_interim (AquaVoice.apply_all es s) = "".
Proof.
  unfold AquaVoice.apply_all. revert s.
  induction es as [|e es IH]; intros s Hfin Hli; [exact Hli|].
  simpl in Hfin. apply andb_true_iff in Hfin as [He Hes].
  simpl. apply IH; [exact Hes|].
  destruct (AquaVoice.recording s) eqn:Hrec;
    [| now rewrite apply_dropped by (now left)].
  destruct (truthy (text e)) eqn:Htext;
    [| apply truthy_false in Htext;
       now rewrite apply_dropped by (now right)].
  rewrite (apply_typed s e Hrec Htext). simpl. now rewrite He.
Qed.

Lemma arrived_delivered (steps : list app_step) :
  arrived steps = flat_map carried_text (delivered steps).
Proof.
  unfold arrived, delivered.
  induction steps as [|a steps IH]; [reflexivity|].
  destruct a as [p|]; simpl; [|exact IH].
  now rewrite IH.
Qed.

Lemma carried_confirmed (es : list TranscriptEvent) :
  forallb final es = true ->
  flat_map carried_text (map payload es) = confirmed_texts es.
Proof.
  unfold confirmed_texts.
  induction es as [|e es IH]; intros Hfin; [reflexivity|].
  simpl in Hfin. apply andb_true_iff in Hfin as [He Hes].
  simpl. rewrite (IH Hes), He. simpl.
  now destruct (truthy (text e)).
Qed.

Lemma app_run_processor (steps : list app_step) (s : AquaVoiceApp.State) :
  AquaVoiceApp.queue_processor_thread (app_run steps s)
  = AquaVoiceApp.queue_processor_thread s.
Proof.
  unfold app_run. revert s.
  induction steps as [|a steps IH]; intros s; [reflexivity|].
  simpl. rewrite IH. destruct a as [p|]; simpl.
  - destruct (AquaVoiceApp.recording s) eqn:Hrec.
    + now rewrite (callback_run p s Hrec).
    + unfold AquaVoiceApp._on_transcript. now rewrite Hrec.
  - destruct s as [c r a st th ft ty q qt qr w]. now destruct q.
Qed.


(** A whole live-typing session fed final results only. *)
Lemma script_session (env : StopEnv) (s : AquaVoice.State)
  (es : list TranscriptEvent) :
  AquaVoice.recording s = true ->
  AquaVoice.final_text s = [] ->
  AquaVoice.last_interim s = "" ->
  AquaVoice.all_typed s = "" ->
  forallb final es = true ->
  let s2 := AquaVoice.stop_recording env (AquaVoice.apply_all es s) in
  let issued := issued_since (AquaVoice.world s) (AquaVoice.world s2) in
  let texts := confirmed_texts es in
  AquaVoice.final_text s2 = texts
  /\ AquaVoice.all_typed s2 = typed_finals texts
  /\ net_typed issued = typed_finals texts
  /\ clipboard_writes issued
     = (if truthy (strip (join " " texts))
        then [strip (join " " texts)] else []).
Proof.
  intros Hrec Hft Hli Hty Hfin s2 issued texts.
  set (s1 := AquaVoice.apply_all es s) in *.
  destruct (reconciled_apply_all (AquaVoice.world s) es s
              (reconciled_reset s Hft Hli Hty))
    as (ops & Htr & Hnet & Hshape).
  fold s1 in Htr, Hnet, Hshape.
  destruct (apply_all_frame es s) as (ops' & Hkb & Htr' & _).
  fold s1 in Htr'. rewrite Htr in Htr'. apply app_inv_head in Htr'.
  subst ops'.
  assert (Hrec1 : AquaVoice.recording s1 = true)
    by (subst s1; now rewrite apply_all_recording).
  assert (Hft1 : AquaVoice.final_text s1 = texts).
  { subst s1 texts. rewrite (apply_all_final_text es s Hrec). now rewrite Hft. }
  assert (Hli1 : AquaVoice.last_interim s1 = "")
    by (subst s1; now apply last_interim_finals).
  rewrite Hli1, append_nil_r, Hft1 in Hshape.
  destruct (teardown_trace_silent env (AquaVoice.connection s1)
              (AquaVoice.stream s1) (AquaVoice.audio s1)) as [Tkb Tclip].
  subst issued s2. rewrite (stop_recording_run env s1 Hrec1).
  unfold issued_since. cbv [AquaVoice.world AquaVoice.final_text
                              AquaVoice.all_typed trace].
  fold (AquaVoice.world s) (AquaVoice.world s1) (AquaVoice.final_text s1)
    (AquaVoice.all_typed s1).
  fold (trace (AquaVoice.world s)) (trace (AquaVoice.world s1)).
  rewrite Htr, <- !app_assoc, skipn_length_app, Hft1.
  repeat split; try assumption.
  - rewrite app_assoc, net_typed_silent.
    + rewrite net_typed_silent by exact Tkb. now rewrite <- Hnet.
    + now destruct (truthy (strip (join " " texts))).
  - rewrite !clipboard_writes_app, Tclip.
    rewrite (keyboard_only_no_clipboard ops Hkb). simpl.
    destruct (truthy (strip (join " " texts))); reflexivity.
Qed.


(** A whole session of the menu-bar app, whatever the interleaving. *)
Lemma app_session (env : StopEnv) (a : AquaVoiceApp.State) (t : nat)
  (steps : list app_step) :
  AquaVoiceApp.recording a = true ->
  AquaVoiceApp.final_text a = [] ->
  AquaVoiceApp.all_typed a = "" ->
  AquaVoiceApp.transcript_queue a = [] ->
  AquaVoiceApp.queue_processor_thread a = Some t ->
  AquaVoiceApp.is_alive t a = true ->
  let a2 := AquaVoiceApp.stop_recording env (app_run steps a) in
  let issued := issued_since (AquaVoiceApp.world a) (AquaVoiceApp.world a2) in
  let texts := arrived steps in
  AquaVoiceApp.final_text a2 = texts
  /\ AquaVoiceApp.all_typed a2 = typed_finals texts
  /\ net_typed issued = typed_finals texts
  /\ clipboard_writes issued
     = (if truthy (strip (join " " texts))
        then [strip (join " " texts)] else []).
Proof.
  intros Hrec Hft Hty Hq Hqt Halive a2 issued texts.
  set (a1 := app_run steps a) in *.
  destruct (queue_order_shape a steps Hrec Hft Hty Hq)
    as (Hrec1 & Htr1 & Hty1).
  fold a1 in Hrec1, Htr1, Hty1.
  destruct (app_run_shape steps a Hrec) as (_ & Hall & _).
  fold a1 in Hall. rewrite Hft, Hq in Hall. simpl in Hall. fold texts in Hall.
  assert (Hqt1 : AquaVoiceApp.queue_processor_thread a1 = Some t)
    by (subst a1; now rewrite app_run_processor).
  assert (Halive1 : AquaVoiceApp.is_alive t a1 = true).
  { unfold AquaVoiceApp.is_alive in *. rewrite Htr1.
    now rewrite (quiet_no_threads _ _ _ (type_finals_quiet _)). }
  destruct (teardown_trace_silent env (AquaVoiceApp.connection a1)
              (AquaVoiceApp.stream a1) (AquaVoiceApp.audio a1)) as [Tkb Tclip].
  destruct (type_finals_keyboard (AquaVoiceApp.final_text a1)) as [F1 C1].
  destruct (type_finals_keyboard (AquaVoiceApp.transcript_queue a1))
    as [F2 C2].
  subst issued a2. rewrite (app_stop_run env a1 t Hrec1 Hqt1 Halive1).
  unfold issued_since.
  cbv [AquaVoiceApp.world AquaVoiceApp.final_text AquaVoiceApp.all_typed
         trace].
  fold (AquaVoiceApp.world a) (AquaVoiceApp.world a1)
    (AquaVoiceApp.final_text a1) (AquaVoiceApp.all_typed a1)
    (AquaVoiceApp.transcript_queue a1).
  fold (trace (AquaVoiceApp.world a)) (trace (AquaVoiceApp.world a1)).
  rewrite Htr1, <- !app_assoc, skipn_length_app, Hall, Hty1.
  rewrite <- typed_finals_app, Hall.
  repeat split.
  - rewrite net_typed_keyboard, !keyboard_calls_app, F1, F2, Tkb.
    replace (keyboard_calls
               (if truthy (strip (join " " texts))
                then [Pbcopy (strip (join " " texts))] else []))
      with (@nil effect)
      by (now destruct (truthy (strip (join " " texts)))).
    change (keyboard_calls [ThreadExit t]) with (@nil effect).
    cbn [app]. rewrite app_nil_r.
    unfold type_finals. rewrite <- map_app. fold (type_finals
      (AquaVoiceApp.final_text a1 ++ AquaVoiceApp.transcript_queue a1)).
    rewrite Hall. apply (net_typed_type_finals [] texts).
  - rewrite !clipboard_writes_app, C1, C2, Tclip. simpl.
    destruct (truthy (strip (join " " texts))); reflexivity.
Qed.

(** The two front ends on final results, with a keyboard that works, one
    processor thread and a [join] that is waited out. *)
Lemma front_ends_agree_on_final_results
  (env env' : StopEnv) (s : AquaVoice.State) (a : AquaVoiceApp.State)
  (t : nat) (es : list TranscriptEvent) (steps : list app_step) :
  AquaVoice.recording s = true ->
  AquaVoice.final_text s = [] ->
  AquaVoice.last_interim s = "" ->
  AquaVoice.all_typed s = "" ->
  AquaVoiceApp.recording a = true ->
  AquaVoiceApp.final_text a = [] ->
  AquaVoiceApp.all_typed a = "" ->
  AquaVoiceApp.transcript_queue a = [] ->
  AquaVoiceApp.queue_processor_thread a = Some t ->
  AquaVoiceApp.is_alive t a = true ->
  forallb final es = true ->
  delivered steps = map payload es ->
  let s2 := AquaVoice.stop_recording env (AquaVoice.apply_all es s) in
  let a2 := AquaVoiceApp.stop_recording env' (app_run steps a) in
  AquaVoiceApp.final_text a2 = AquaVoice.final_text s2
  /\ AquaVoiceApp.all_typed a2 = AquaVoice.all_typed s2
  /\ net_typed (issued_since (AquaVoiceApp.world a) (AquaVoiceApp.world a2))
     = net_typed (issued_since (AquaVoice.world s) (AquaVoice.world s2))
  /\ clipboard_writes
       (issued_since (AquaVoiceApp.world a) (AquaVoiceApp.world a2))
     = clipboard_writes
         (issued_since (AquaVoice.world s) (AquaVoice.world s2)).
Proof.
  intros Hrec Hft Hli Hty Arec Aft Aty Aq Aqt Aalive Hfin Hsteps s2 a2.
  destruct (script_session env s es Hrec Hft Hli Hty Hfin)
    as (S1 & S2 & S3 & S4).
  destruct (app_session env' a t steps Arec Aft Aty Aq Aqt Aalive)
    as (A1 & A2 & A3 & A4).
  fold s2 in S1, S2, S3, S4. fold a2 in A1, A2, A3, A4.
  assert (Hsame : arrived steps = confirmed_texts es)
    by (now rewrite arrived_delivered, Hsteps, carried_confirmed).
  rewrite Hsame in *.
  now rewrite S1, S2, S3, S4, A1, A2, A3, A4.
Qed.

End FrontEnds.

(** * Starts that fail *)

(** Menu-bar app: a start that fails inside the [try] block leaves the
    queue processor behind.  The thread started before the [try] is never
    told to stop: [queue_running] stays True, the thread stays among the
    running ones, and as the session is idle again neither
    [stop_recording] nor [cancel_recording] will join it. *)
Theorem failed_start_keeps_queue_processor
  (env : StartEnv) (s : AquaVoiceApp.State) :
  AquaVoiceApp.recording s = false ->
  thread_start_ok env = true ->
  start_succeeds env = false ->
  let q := next_handle (AquaVoiceApp.world s) in
  let s' := AquaVoiceApp.start_recording env s in
  AquaVoiceApp.recording s' = false
  /\ AquaVoiceApp.queue_running s' = true
  /\ AquaVoiceApp.queue_processor_thread s' = Some q
  /\ running_threads process_transcript_queue (trace (AquaVoiceApp.world s'))
     = running_threads process_transcript_queue (trace (AquaVoiceApp.world s))
       ++ [q]
  /\ forall senv,
      AquaVoiceApp.stop_recording senv s' = s'
      /\ AquaVoiceApp.cancel_recording senv s' = s'.
Proof.
  destruct env as [w cs pa ao ts]. unfold start_succeeds.
  destruct s as [c r a st th ft ty qu qt qr [tr nh]].
  simpl. intros -> -> Hfail.
  destruct w, cs as [[|]|], pa, ao; try discriminate Hfail; run_app;
    unfold running_threads; rewrite ?fold_left_app;
    repeat split.
Qed.

Lemma failed_start_keeps_queue_processor_witness :
  let env :=
    {| websocket_v_ok := true; connection_start := Some true;
       PyAudio_ok := false; audio_open_ok := true; thread_start_ok := true |} in
  let s' := AquaVoiceApp.start_recording env AquaVoiceApp.init in
  AquaVoiceApp.recording s' = false
  /\ AquaVoiceApp.queue_running s' = true
  /\ running_threads process_transcript_queue (trace (AquaVoiceApp.world s'))
     = [0].
Proof.
  intros env s'.
  destruct (failed_start_keeps_queue_processor env AquaVoiceApp.init
              eq_refl eq_refl eq_refl) as (H1 & H2 & _ & H4 & _).
  split; [exact H1|]. split; [exact H2 | exact H4].
Defined.

(** Live typing: a start that fails closes nothing it has opened.  The
    session is idle again, the connection, the PyAudio instance and the
    stream that were opened before the failing step stay open, and
    [stop_recording] and [cancel_recording], which would close them,
    return at their guard. *)
Theorem failed_start_releases_nothing
  (env : StartEnv) (s : AquaVoice.State) :
  AquaVoice.recording s = false ->
  start_succeeds env = false ->
  let h := next_handle (AquaVoice.world s) in
  let s' := AquaVoice.start_recording env s in
  let connected :=
    websocket_v_ok env
    && match connection_start env with Some true => true | _ => false end in
  AquaVoice.recording s' = false
  /\ open_connections (trace (AquaVoice.world s'))
     = open_connections (trace (AquaVoice.world s))
       ++ (if connected then [h] else [])
  /\ open_audio (trace (AquaVoice.world s'))
     = open_audio (trace (AquaVoice.world s))
       ++ (if connected && PyAudio_ok env then [1 + h] else [])
  /\ open_streams (trace (AquaVoice.world s'))
     = open_streams (trace (AquaVoice.world s))
       ++ (if connected && PyAudio_ok env && audio_open_ok env
           then [2 + h] else [])
  /\ forall senv,
      AquaVoice.stop_recording senv s' = s'
      /\ AquaVoice.cancel_recording senv s' = s'.
Proof.
  destruct env as [w cs pa ao ts]. unfold start_succeeds.
  destruct s as [c r a st th ft li ty [tr nh]].
  simpl. intros -> Hfail.
  destruct w, cs as [[|]|], pa, ao, ts; try discriminate Hfail; run_voice;
    unfold open_connections, open_audio, open_streams;
    rewrite ?fold_left_app; simpl; rewrite ?app_nil_r;
    repeat split.
Qed.

Lemma failed_start_releases_nothing_witness :
  let env :=
    {| websocket_v_ok := true; connection_start := Some true;
       PyAudio_ok := true; audio_open_ok := true; thread_start_ok := false |} in
  let s' := AquaVoice.start_recording env AquaVoice.init in
  AquaVoice.recording s' = false
  /\ open_connections (trace (AquaVoice.world s')) = [0]
  /\ open_audio (trace (AquaVoice.world s')) = [1]
  /\ open_streams (trace (AquaVoice.world s')) = [2].
Proof.
  intros env s'.
  destruct (failed_start_releases_nothing env AquaVoice.init
              eq_refl eq_refl) as (H1 & H2 & H3 & H4 & _).
  repeat split; assumption.
Defined.

(** * The methods when the keyboard raises *)

(** ** A keyboard that works *)

Section WorkingKeyboard.

Context {St : Type} (emit : list effect -> St -> St).
Hypothesis emit_nil : forall s, emit [] s = s.
Hypothesis emit_emit :
  forall a b s, emit b (emit a s) = emit (a ++ b) s.

Lemma press_loop_works (i n : nat) (s : St) :
  press_loop emit works i n s = (Some tt, emit (press_backspaces n) s).
Proof.
  revert i s. induction n as [|n IH]; intros i s; simpl.
  - now rewrite emit_nil.
  - unfold bind, modify. rewrite IH, !emit_emit. reflexivity.
Qed.

End WorkingKeyboard.

Section ScriptFaults.

Lemma voice_emit_nil (s : AquaVoice.State) : AquaVoice.emit [] s = s.
Proof.
  destruct s as [c r a st th ft li ty [tr nh]].
  unfold AquaVoice.emit, AquaVoice.set_world, emit_w; simpl.
  now rewrite app_nil_r.
Qed.

Lemma voice_emit_emit (a b : list effect) (s : AquaVoice.State) :
  AquaVoice.emit b (AquaVoice.emit a s) = AquaVoice.emit (a ++ b) s.
Proof.
  destruct s as [c r x st th ft li ty [tr nh]].
  unfold AquaVoice.emit, AquaVoice.set_world, emit_w; simpl.
  now rewrite app_assoc.
Qed.

(** With a keyboard that works the [except] branch is never taken. *)
Lemma on_transcript_works (p : option Result) (s : AquaVoice.State) :
  Faults._on_transcript works p s = AquaVoice._on_transcript p s.
Proof.
  unfold Faults._on_transcript, AquaVoice._on_transcript.
  destruct (AquaVoice.recording s); [|reflexivity]. cbn [negb].
  destruct p as [[ch f]|]; [|reflexivity].
  destruct ch as [[alts]|]; [|reflexivity].
  destruct alts as [[|[t] rest]|]; try reflexivity.
  cbn [channel alternatives transcript is_final].
  destruct (truthy t); [|reflexivity]. cbn [negb].
  unfold run, try_except, bind.
  destruct (truthy (AquaVoice.last_interim s)).
  - rewrite (press_loop_works AquaVoice.emit voice_emit_nil voice_emit_emit).
    destruct (match f with Some b => b | None => false end); reflexivity.
  - destruct (match f with Some b => b | None => false end); reflexivity.
Qed.

Lemma apply_all_work (rs : list (Keyboard * TranscriptEvent))
  (s : AquaVoice.State) :
  Faults.all_work rs = true ->
  Faults.apply_all rs s = AquaVoice.apply_all (map snd rs) s.
Proof.
  unfold Faults.apply_all, AquaVoice.apply_all, Faults.all_work. revert s.
  induction rs as [|[kb e] rs IH]; intros s H; [reflexivity|].
  simpl in H. apply andb_true_iff in H as [Hkb Hrs].
  destruct kb; [|discriminate]. simpl. rewrite <- (IH _ Hrs).
  unfold Faults.apply at 2. simpl. now rewrite on_transcript_works.
Qed.


End ScriptFaults.

(** ** The reconciler invariant and the keyboard *)

Section ScriptFaultsTheorems.






(** Live typing: as long as no keyboard call raises, whenever no interim
    is pending and at least one segment has been finalized since the reset,
    the typed buffer is the finalized segments joined by single spaces,
    followed by one space: what [stop_recording] joins for the clipboard is
    the text on screen without its trailing space. *)
Theorem accepted_finals_are_the_typed_buffer
  (s : AquaVoice.State) (rs : list (Keyboard * TranscriptEvent)) :
  AquaVoice.final_text s = [] ->
  AquaVoice.last_interim s = "" ->
  AquaVoice.all_typed s = "" ->
  Faults.all_work rs = true ->
  let s1 := Faults.apply_all rs s in
  AquaVoice.last_interim s1 = "" ->
  AquaVoice.final_text s1 <> [] ->
  AquaVoice.all_typed s1
  = (join " " (AquaVoice.final_text s1) ++ " ")%string
  /\ AquaVoice.all_typed s1
     = net_typed (issued_since (AquaVoice.world s) (AquaVoice.world s1)).
Proof.
  intros Hft Hli Hty Hwork s1. subst s1.
  rewrite (apply_all_work rs s Hwork). intros Hli1 Hne.
  destruct (reconciled_apply_all (AquaVoice.world s) (map snd rs) s
              (reconciled_reset s Hft Hli Hty))
    as (ops & Htr & Hnet & Hshape).
  split.
  - now rewrite Hshape, Hli1, append_nil_r, typed_finals_join.
  - unfold issued_since. now rewrite Htr, skipn_length_app.
Qed.

Lemma accepted_finals_are_the_typed_buffer_witness :
  let s1 :=
    Faults.apply_all
      [(works, interim_event "hel"); (works, final_event "hello");
       (works, interim_event "wor"); (works, final_event "world")]
      (AquaVoice.start_recording all_ok AquaVoice.init) in
  AquaVoice.all_typed s1 = "hello world ".
Proof.
  intros s1.
  destruct (accepted_finals_are_the_typed_buffer
              (AquaVoice.start_recording all_ok AquaVoice.init)
              [(works, interim_event "hel"); (works, final_event "hello");
               (works, interim_event "wor"); (works, final_event "world")]
              eq_refl eq_refl eq_refl eq_refl eq_refl)
    as [H _]; [discriminate|].
  exact H.
Defined.

End ScriptFaultsTheorems.

(** ** The threads of the menu-bar app *)

Section OneProcessor.

Import AquaVoiceApp.

Lemma alive_sole (t : nat) (s : State) :
  running_threads process_transcript_queue (trace (world s)) = [t] -> is_alive t s = true.
Proof.
  unfold is_alive. intros ->. simpl. now rewrite Nat.eqb_refl.
Qed.

Lemma alive_is_sole (t t' : nat) (s : State) :
  running_threads process_transcript_queue (trace (world s)) = [t] -> is_alive t' s = true -> t' = t.
Proof.
  unfold is_alive. intros ->. simpl. rewrite orb_false_r.
  apply Nat.eqb_eq.
Qed.

Lemma callback_idle (p : option Result) (s : State) :
  recording s = false -> _on_transcript p s = s.
Proof. intros H. unfold _on_transcript. now rewrite H. Qed.

(** A pass by a live thread with a keyboard that works is [process_one]. *)
Lemma turn_works (t : nat) (s : State) :
  is_alive t s = true -> processor_loops s = true ->
  AppThreads.turn t works s = process_one s.
Proof.
  intros Ha Hl. unfold AppThreads.turn. rewrite Ha, Hl. cbn [andb].
  destruct s as [c r a st th ft ty q qt qr w]. now destruct q.
Qed.

Lemma process_one_frame (s : State) :
  recording (process_one s) = recording s
  /\ queue_running (process_one s) = queue_running s
  /\ queue_processor_thread (process_one s) = queue_processor_thread s
  /\ running_threads process_transcript_queue
       (trace (world (process_one s)))
     = running_threads process_transcript_queue (trace (world s)).
Proof.
  destruct s as [c r a st th ft ty q qt qr [tr nh]].
  destruct q as [|text rest]; [now repeat split|].
  repeat split. cbn. now rewrite fold_left_app.
Qed.

Lemma callback_frame (p : option Result) (s : State) :
  recording (_on_transcript p s) = recording s
  /\ queue_running (_on_transcript p s) = queue_running s
  /\ queue_processor_thread (_on_transcript p s) = queue_processor_thread s
  /\ world (_on_transcript p s) = world s.
Proof.
  destruct (recording s) eqn:Hrec.
  - rewrite (callback_run p s Hrec). now repeat split.
  - rewrite (callback_idle p s Hrec). now repeat split.
Qed.

(** While the app records with one processor thread and a keyboard that
    works, the steps of the threads are a schedule of callbacks and
    processor turns. *)
Lemma recording_steps (t : nat) (steps : list AppThreads.step) :
  forall s,
    recording s = true -> queue_running s = true ->
    AppThreads.sole_processor t s ->
    AppThreads.turns_work steps = true ->
    exists schedule,
      AppThreads.run_steps steps s = app_run schedule s
      /\ delivered schedule = AppThreads.delivered steps
      /\ queue_running (AppThreads.run_steps steps s) = true
      /\ AppThreads.sole_processor t (AppThreads.run_steps steps s).
Proof.
  unfold AppThreads.run_steps, app_run, AppThreads.sole_processor.
  induction steps as [|a steps IH]; intros s Hrec Hqr [Hqt Hsole] Hwork.
  - exists []. now repeat split.
  - simpl in Hwork. apply andb_true_iff in Hwork as [Ha Hwork].
    destruct a as [p | t' kb | t']; cbn [fold_left AppThreads.run_step].
    + destruct (callback_frame p s) as (Fr & Fq & Ft & Fw).
      destruct (IH (_on_transcript p s)) as (sch & Hrun & Hdel & Hend);
        try congruence; [split; congruence|].
      exists (Callback p :: sch). simpl. rewrite Hdel. now repeat split.
    + destruct kb; [|discriminate].
      destruct (is_alive t' s && processor_loops s) eqn:E.
      * apply andb_true_iff in E as [Ea El].
        rewrite (turn_works t' s Ea El).
        destruct (process_one_frame s) as (Fr & Fq & Ft & Fw).
        destruct (IH (process_one s)) as (sch & Hrun & Hdel & Hend);
          try congruence; [split; congruence|].
        exists (ProcessorTurn :: sch). simpl. now repeat split.
      * unfold AppThreads.turn. rewrite E.
        destruct (IH s) as (sch & Hrun & Hdel & Hend); try assumption;
          [now split|].
        exists sch. now repeat split.
    + unfold AppThreads.returns, processor_loops. rewrite Hqr.
      cbn [orb negb]. rewrite andb_false_r.
      destruct (IH s) as (sch & Hrun & Hdel & Hend); try assumption;
        [now split|].
      exists sch. now repeat split.
Qed.


Lemma app_emit_nil (s : State) : emit [] s = s.
Proof.
  destruct s as [c r a st th ft ty q qt qr [tr nh]].
  unfold emit, set_world, emit_w; simpl. now rewrite app_nil_r.
Qed.

Lemma app_emit_emit (x y : list effect) (s : State) :
  emit y (emit x s) = emit (x ++ y) s.
Proof.
  destruct s as [c r a st th ft ty q qt qr [tr nh]].
  unfold emit, set_world, emit_w; simpl. now rewrite app_assoc.
Qed.

(** Once idle with no processor thread running, nothing moves. *)
Lemma run_steps_dead (steps : list AppThreads.step) (s : State) :
  recording s = false ->
  running_threads process_transcript_queue (trace (world s)) = [] ->
  AppThreads.run_steps steps s = s.
Proof.
  intros Hrec Hnone. unfold AppThreads.run_steps.
  induction steps as [|a steps IH]; [reflexivity|].
  cbn [fold_left].
  replace (AppThreads.run_step s a) with s; [exact IH|].
  destruct a as [p | t kb | t]; cbn [AppThreads.run_step].
  - now rewrite callback_idle.
  - unfold AppThreads.turn, is_alive. now rewrite Hnone.
  - unfold AppThreads.returns, is_alive. now rewrite Hnone.
Qed.

(** A [join] that ends because the sole processor thread has returned:
    with a keyboard that works the thread has typed everything that was
    queued, one pass per text, and then left its loop. *)
Lemma joined_steps (t : nat) (during : list AppThreads.step) :
  forall s,
    recording s = false -> queue_running s = false ->
    running_threads process_transcript_queue (trace (world s)) = [t] ->
    AppThreads.turns_work during = true ->
    is_alive t (AppThreads.run_steps during s) = false ->
    AppThreads.run_steps during s
    = emit [ThreadExit t]
        (Nat.iter (List.length (transcript_queue s)) process_one s).
Proof.
  unfold AppThreads.run_steps.
  induction during as [|a during IH]; intros s Hrec Hqr Hsole Hwork Hdead.
  - cbn [fold_left] in Hdead. now rewrite (alive_sole t s Hsole) in Hdead.
  - simpl in Hwork. apply andb_true_iff in Hwork as [Ha Hwork].
    cbn [fold_left] in Hdead |- *.
    destruct a as [p | t' kb | t']; cbn [AppThreads.run_step] in Hdead |- *.
    + rewrite (callback_idle p s Hrec) in Hdead |- *. now apply IH.
    + destruct kb; [|discriminate].
      destruct (is_alive t' s && processor_loops s) eqn:E.
      * apply andb_true_iff in E as [Ea El].
        rewrite (turn_works t' s Ea El) in Hdead |- *.
        destruct (process_one_frame s) as (Fr & Fq & _ & Fw).
        rewrite (IH (process_one s)); try congruence.
        f_equal. unfold processor_loops in El. rewrite Hqr in El.
        destruct s as [c r x st th ft ty q qt qr w].
        destruct q as [|text rest]; [discriminate El|].
        cbn [transcript_queue List.length].
        now rewrite Nat.iter_succ_r.
      * unfold AppThreads.turn in Hdead |- *. rewrite E in Hdead |- *.
        now apply IH.
    + destruct (is_alive t' s && negb (processor_loops s)) eqn:E.
      * apply andb_true_iff in E as [Ea El].
        pose proof (alive_is_sole t t' s Hsole Ea) as ->.
        unfold AppThreads.returns. rewrite Ea, El. cbn [andb].
        apply negb_true_iff in El. unfold processor_loops in El.
        rewrite Hqr in El.
        assert (Hq : transcript_queue s = [])
          by (destruct s as [c r x st th ft ty q qt qr w];
              now destruct q).
        rewrite Hq. cbn [List.length Nat.iter nat_rect].
        apply (run_steps_dead during).
        -- destruct s as [c r x st th ft ty q qt qr w]. exact Hrec.
        -- destruct s as [c r x st th ft ty q qt qr [tr nh]].
           cbn in Hsole |- *. rewrite fold_left_app, Hsole. cbn.
           now rewrite Nat.eqb_refl.
      * unfold AppThreads.returns in Hdead |- *. rewrite E in Hdead |- *.
        now apply IH.
Qed.


Lemma alive_after_copy (t : nat) (text : string) (s : State) :
  is_alive t (copy_to_clipboard text s) = is_alive t s.
Proof.
  destruct s as [c r a st th ft ty q qt qr [tr nh]].
  unfold is_alive. cbn. now rewrite fold_left_app.
Qed.

Lemma alive_after_press (t n : nat) (s : State) :
  is_alive t (emit (press_backspaces n) s) = is_alive t s.
Proof.
  destruct s as [c r a st th ft ty q qt qr [tr nh]].
  unfold is_alive, emit, set_world, emit_w.
  cbv [world trace].
  now rewrite (quiet_no_threads _ tr _ (press_backspaces_quiet n)).
Qed.

(** The state in which [stop_recording] and [cancel_recording] wait for
    the processor thread. *)
Lemma teardown_frame (env : StopEnv) (t : nat) (s : State) :
  running_threads process_transcript_queue (trace (world s)) = [t] ->
  let x := terminate_audio env (close_stream env (close_connection env s)) in
  recording x = recording s
  /\ queue_running x = queue_running s
  /\ queue_processor_thread x = queue_processor_thread s
  /\ transcript_queue x = transcript_queue s
  /\ running_threads process_transcript_queue (trace (world x)) = [t].
Proof.
  intros Hsole x. subst x. rewrite app_teardown_run.
  repeat split; try (now destruct s).
  replace (trace (world _))
    with (trace (world s)
          ++ teardown_trace env (connection s) (stream s) (audio s))
    by (now destruct s).
  now rewrite running_threads_teardown.
Qed.

(** When the sole processor thread has returned by the time
    [stop_recording] returns, and the keyboard has worked, the method has
    done what it does when its [join] is waited out. *)
Lemma stop_joined (env : StopEnv) (t : nat) (during : list AppThreads.step)
  (s : State) :
  recording s = true ->
  AppThreads.sole_processor t s ->
  AppThreads.turns_work during = true ->
  is_alive t (AppThreads.stop_recording env during s) = false ->
  AppThreads.stop_recording env during s = stop_recording env s.
Proof.
  intros Hrec [Hqt Hsole] Hwork.
  unfold AppThreads.stop_recording, stop_recording.
  rewrite Hrec. cbn [negb]. cbv zeta.
  set (x := set_queue_running false
              (terminate_audio env
                 (close_stream env
                    (close_connection env (set_recording false s))))).
  assert (Hsole0 :
            running_threads process_transcript_queue
              (trace (world (set_recording false s))) = [t])
    by (destruct s; exact Hsole).
  destruct (teardown_frame env t (set_recording false s) Hsole0)
    as (Xr & _ & Xt & _ & Xs).
  assert (Hxr : recording x = false)
    by (subst x; destruct s; exact Xr).
  assert (Hxq : queue_running x = false) by reflexivity.
  assert (Hxt : queue_processor_thread x = Some t).
  { subst x. cbn [queue_processor_thread set_queue_running].
    rewrite Xt. destruct s; exact Hqt. }
  assert (Hxs : running_threads process_transcript_queue (trace (world x))
                = [t]) by exact Xs.
  unfold AppThreads.join_processor, join_queue_processor.
  rewrite Hxt, (alive_sole t x Hxs).
  intros Hdead.
  assert (Hdead' : is_alive t (AppThreads.run_steps during x) = false).
  { destruct (truthy _) in Hdead; [|exact Hdead].
    now rewrite alive_after_copy in Hdead. }
  now rewrite (joined_steps t during x Hxr Hxq Hxs Hwork Hdead').
Qed.

Lemma cancel_joined (env : StopEnv) (t : nat) (during : list AppThreads.step)
  (s : State) :
  recording s = true ->
  AppThreads.sole_processor t s ->
  AppThreads.turns_work during = true ->
  is_alive t (snd (AppThreads.cancel_recording works env during s)) = false ->
  AppThreads.cancel_recording works env during s
  = (Some tt, cancel_recording env s).
Proof.
  intros Hrec [Hqt Hsole] Hwork.
  unfold AppThreads.cancel_recording, cancel_recording.
  rewrite Hrec. cbn [negb]. cbv zeta.
  set (s0 := set_transcript_queue []
               (set_queue_running false (set_recording false s))).
  assert (Hsole0 :
            running_threads process_transcript_queue (trace (world s0))
            = [t]) by (destruct s; exact Hsole).
  destruct (teardown_frame env t s0 Hsole0) as (Xr & Xq & Xt & Xu & Xs).
  set (x := terminate_audio env
              (close_stream env (close_connection env s0))) in *.
  assert (Hxr : recording x = false) by (rewrite Xr; now destruct s).
  assert (Hxq : queue_running x = false) by (rewrite Xq; now destruct s).
  assert (Hxt : queue_processor_thread x = Some t)
    by (rewrite Xt; destruct s; exact Hqt).
  assert (Hxu : transcript_queue x = []) by (rewrite Xu; now destruct s).
  unfold AppThreads.join_processor, join_queue_processor.
  rewrite Hxt, (alive_sole t x Xs).
  intros Hdead.
  assert (Hdead' : is_alive t (AppThreads.run_steps during x) = false).
  { destruct (truthy _) in Hdead; [|exact Hdead].
    rewrite (press_loop_works emit app_emit_nil app_emit_emit) in Hdead.
    cbn [snd] in Hdead. now rewrite alive_after_press in Hdead. }
  rewrite (joined_steps t during x Hxr Hxq Xs Hwork Hdead'), Hxu.
  cbn [List.length Nat.iter nat_rect].
  rewrite (press_loop_works emit app_emit_nil app_emit_emit).
  now destruct (truthy (all_typed (emit [ThreadExit t] x))).
Qed.

End OneProcessor.

(** Menu-bar app: with one processor thread running and a keyboard that
    works, no transcript is lost, duplicated or reordered between start and
    stop, however the callback and the passes of the processor interleave:
    the finalized segments followed by what is still queued are the texts
    handed to the callback, in arrival order.  The keyboard calls issued
    type exactly the finalized segments, each followed by a space, and the
    typed buffer mirrors them. *)
Theorem single_processor_keeps_arrival_order
  (s : AquaVoiceApp.State) (t : nat) (steps : list AppThreads.step) :
  AquaVoiceApp.recording s = true ->
  AquaVoiceApp.queue_running s = true ->
  AquaVoiceApp.final_text s = [] ->
  AquaVoiceApp.all_typed s = "" ->
  AquaVoiceApp.transcript_queue s = [] ->
  AppThreads.sole_processor t s ->
  AppThreads.turns_work steps = true ->
  let s' := AppThreads.run_steps steps s in
  let issued := issued_since (AquaVoiceApp.world s) (AquaVoiceApp.world s') in
  AquaVoiceApp.final_text s' ++ AquaVoiceApp.transcript_queue s'
  = AppThreads.arrived steps
  /\ issued = type_finals (AquaVoiceApp.final_text s')
  /\ AquaVoiceApp.all_typed s' = typed_finals (AquaVoiceApp.final_text s')
  /\ AquaVoiceApp.all_typed s' = net_typed issued.
Proof.
  intros Hrec Hqr Hft Hty Hq Hsole Hwork s' issued. subst issued s'.
  destruct (recording_steps t steps s Hrec Hqr Hsole Hwork)
    as (schedule & -> & Hdel & _).
  unfold AppThreads.arrived. rewrite <- Hdel, <- arrived_delivered.
  exact (queue_keeps_arrival_order s schedule Hrec Hft Hty Hq).
Qed.

Lemma single_processor_keeps_arrival_order_witness :
  let s := AquaVoiceApp.start_recording all_ok AquaVoiceApp.init in
  let s' :=
    AppThreads.run_steps
      [AppThreads.Delivers (payload (final_event "one"));
       AppThreads.Delivers (payload (final_event "two"));
       AppThreads.Turn 0 works;
       AppThreads.Delivers (payload (final_event "three"));
       AppThreads.Turn 0 works] s in
  AquaVoiceApp.final_text s' ++ AquaVoiceApp.transcript_queue s'
  = ["one"; "two"; "three"]
  /\ AquaVoiceApp.all_typed s' = "one two ".
Proof.
  intros s s'.
  destruct (single_processor_keeps_arrival_order s 0
              [AppThreads.Delivers (payload (final_event "one"));
               AppThreads.Delivers (payload (final_event "two"));
               AppThreads.Turn 0 works;
               AppThreads.Delivers (payload (final_event "three"));
               AppThreads.Turn 0 works]
              eq_refl eq_refl eq_refl eq_refl eq_refl
              (conj eq_refl eq_refl) eq_refl)
    as (Hall & _ & Hty & _).
  split; [exact Hall | exact Hty].
Defined.

(** Menu-bar app: when the processor thread is the only one running, the
    keyboard works and the thread has returned by the time
    [stop_recording] returns (its [join] did not time out), the thread has
    typed every transcript still queued, in queue order, before the
    clipboard is written: the queue ends empty, the queued texts join the
    finalized segments, the only keyboard calls are those that type them,
    and the clipboard receives the stripped join of all segments, the
    flushed ones included. *)
Theorem joined_stop_flushes_the_queue
  (env : StopEnv) (s : AquaVoiceApp.State) (t : nat)
  (during : list AppThreads.step) :
  AquaVoiceApp.recording s = true ->
  AppThreads.sole_processor t s ->
  AppThreads.turns_work during = true ->
  let s' := AppThreads.stop_recording env during s in
  AquaVoiceApp.is_alive t s' = false ->
  let issued := issued_since (AquaVoiceApp.world s) (AquaVoiceApp.world s') in
  let texts := AquaVoiceApp.final_text s ++ AquaVoiceApp.transcript_queue s in
  AquaVoiceApp.final_text s' = texts
  /\ AquaVoiceApp.transcript_queue s' = []
  /\ AquaVoiceApp.all_typed s'
     = (AquaVoiceApp.all_typed s
        ++ typed_finals (AquaVoiceApp.transcript_queue s))%string
  /\ keyboard_calls issued = type_finals (AquaVoiceApp.transcript_queue s)
  /\ clipboard_writes issued
     = (if truthy (strip (join " " texts))
        then [strip (join " " texts)] else []).
Proof.
  intros Hrec Hsole Hwork s' Hdead issued texts. subst issued s'.
  rewrite (stop_joined env t during s Hrec Hsole Hwork Hdead).
  destruct Hsole as [Hqt Hsole].
  destruct (stop_flushes_the_queue env s t Hrec Hqt
              (alive_sole t s Hsole))
    as (H1 & H2 & H3 & H4 & H5 & _).
  now repeat split.
Qed.

Lemma joined_stop_flushes_the_queue_witness :
  let s :=
    AppThreads.run_steps
      [AppThreads.Delivers (payload (final_event "one"));
       AppThreads.Turn 0 works;
       AppThreads.Delivers (payload (final_event "two"))]
      (AquaVoiceApp.start_recording all_ok AquaVoiceApp.init) in
  let s' :=
    AppThreads.stop_recording clean_stop
      [AppThreads.Turn 0 works; AppThreads.Returns 0] s in
  AquaVoiceApp.final_text s' = ["one"; "two"]
  /\ clipboard_writes
       (issued_since (AquaVoiceApp.world s) (AquaVoiceApp.world s'))
     = ["one two"].
Proof.
  intros s s'.
  destruct (joined_stop_flushes_the_queue clean_stop s 0
              [AppThreads.Turn 0 works; AppThreads.Returns 0]
              eq_refl (conj eq_refl eq_refl) eq_refl eq_refl)
    as (Hft & _ & _ & _ & Hclip).
  split; [exact Hft | exact Hclip].
Defined.

(** Menu-bar app: with one processor thread, a keyboard that works and a
    [join] that ends with the thread returned, [cancel_recording] throws
    away what is still queued and undoes what the session typed.  The
    transcripts waiting in the queue are never typed, the only keyboard
    calls of the cancel are one backspace per character of the typed
    buffer, and the keystrokes issued from the reset to the end of the
    cancel net out to no text.  Nothing is written to the clipboard in the
    whole session. *)
Theorem joined_cancel_discards_queue_and_restores
  (env : StopEnv) (s : AquaVoiceApp.State) (t : nat)
  (steps during : list AppThreads.step) :
  AquaVoiceApp.recording s = true ->
  AquaVoiceApp.queue_running s = true ->
  AquaVoiceApp.final_text s = [] ->
  AquaVoiceApp.all_typed s = "" ->
  AquaVoiceApp.transcript_queue s = [] ->
  AppThreads.sole_processor t s ->
  AppThreads.turns_work steps = true ->
  AppThreads.turns_work during = true ->
  let s1 := AppThreads.run_steps steps s in
  let s2 := snd (AppThreads.cancel_recording works env during s1) in
  AquaVoiceApp.is_alive t s2 = false ->
  fst (AppThreads.cancel_recording works env during s1) = Some tt
  /\ keyboard_calls
       (issued_since (AquaVoiceApp.world s1) (AquaVoiceApp.world s2))
     = press_backspaces (String.length (AquaVoiceApp.all_typed s1))
  /\ AquaVoiceApp.transcript_queue s2 = []
  /\ AquaVoiceApp.final_text s2 = AquaVoiceApp.final_text s1
  /\ net_typed (issued_since (AquaVoiceApp.world s) (AquaVoiceApp.world s2))
     = ""
  /\ clipboard_writes
       (issued_since (AquaVoiceApp.world s) (AquaVoiceApp.world s2)) = [].
Proof.
  intros Hrec Hqr Hft Hty Hq Hsole Hwork Hwork' s1 s2 Hdead. subst s2 s1.
  destruct (recording_steps t steps s Hrec Hqr Hsole Hwork)
    as (schedule & Hrun & _ & _ & Hsole1).
  rewrite Hrun in *.
  destruct (queue_order_shape s schedule Hrec Hft Hty Hq) as (Hrec1 & _).
  rewrite (cancel_joined env t during _ Hrec1 Hsole1 Hwork' Hdead).
  split; [reflexivity|]. cbn [snd].
  exact (app_cancel_discards_queue_and_restores env s schedule
           Hrec Hft Hty Hq).
Qed.

Lemma joined_cancel_discards_queue_and_restores_witness :
  let s := AquaVoiceApp.start_recording all_ok AquaVoiceApp.init in
  let s1 :=
    AppThreads.run_steps
      [AppThreads.Delivers (payload (final_event "one"));
       AppThreads.Turn 0 works;
       AppThreads.Delivers (payload (final_event "two"))] s in
  let s2 :=
    snd (AppThreads.cancel_recording works clean_stop
           [AppThreads.Returns 0] s1) in
  AquaVoiceApp.all_typed s1 = "one "
  /\ net_typed (issued_since (AquaVoiceApp.world s) (AquaVoiceApp.world s2))
     = ""
  /\ clipboard_writes
       (issued_since (AquaVoiceApp.world s) (AquaVoiceApp.world s2)) = [].
Proof.
  intros s s1 s2.
  destruct (joined_cancel_discards_queue_and_restores clean_stop s 0
              [AppThreads.Delivers (payload (final_event "one"));
               AppThreads.Turn 0 works;
               AppThreads.Delivers (payload (final_event "two"))]
              [AppThreads.Returns 0]
              eq_refl eq_refl eq_refl eq_refl eq_refl
              (conj eq_refl eq_refl) eq_refl eq_refl eq_refl)
    as (_ & _ & _ & _ & Hnet & Hclip).
  split; [reflexivity|]. split; [exact Hnet | exact Hclip].
Defined.

(** Fed final results only, and as long as no keyboard call raises, the
    two front ends end alike: the menu-bar app, with one processor thread
    that has returned by the time [stop_recording] returns, finishes a
    stopped session with the same finalized segments, the same typed
    buffer, the same text left at the cursor and the same clipboard write
    as the live-typing script, however its callback and the passes of its
    processor interleave. *)
Theorem front_ends_agree_when_injection_succeeds
  (env env' : StopEnv) (s : AquaVoice.State) (a : AquaVoiceApp.State)
  (t : nat) (rs : list (Keyboard * TranscriptEvent))
  (steps during : list AppThreads.step) :
  AquaVoice.recording s = true ->
  AquaVoice.final_text s = [] ->
  AquaVoice.last_interim s = "" ->
  AquaVoice.all_typed s = "" ->
  AquaVoiceApp.recording a = true ->
  AquaVoiceApp.queue_running a = true ->
  AquaVoiceApp.final_text a = [] ->
  AquaVoiceApp.all_typed a = "" ->
  AquaVoiceApp.transcript_queue a = [] ->
  AppThreads.sole_processor t a ->
  Faults.all_work rs = true ->
  forallb final (map snd rs) = true ->
  AppThreads.delivered steps = map payload (map snd rs) ->
  AppThreads.turns_work steps = true ->
  AppThreads.turns_work during = true ->
  let s2 := AquaVoice.stop_recording env (Faults.apply_all rs s) in
  let a2 :=
    AppThreads.stop_recording env' during (AppThreads.run_steps steps a) in
  AquaVoiceApp.is_alive t a2 = false ->
  AquaVoiceApp.final_text a2 = AquaVoice.final_text s2
  /\ AquaVoiceApp.all_typed a2 = AquaVoice.all_typed s2
  /\ net_typed (issued_since (AquaVoiceApp.world a) (AquaVoiceApp.world a2))
     = net_typed (issued_since (AquaVoice.world s) (AquaVoice.world s2))
  /\ clipboard_writes
       (issued_since (AquaVoiceApp.world a) (AquaVoiceApp.world a2))
     = clipboard_writes
         (issued_since (AquaVoice.world s) (AquaVoice.world s2)).
Proof.
  intros Hrec Hft Hli Hty Arec Aqr Aft Aty Aq Asole Hwork Hfin Hdel
    Swork Dwork s2 a2 Hdead. subst s2 a2.
  rewrite (apply_all_work rs s Hwork).
  destruct (recording_steps t steps a Arec Aqr Asole Swork)
    as (schedule & Hrun & Hsch & _ & Asole1).
  rewrite Hrun in *.
  destruct (queue_order_shape a schedule Arec Aft Aty Aq) as (Arec1 & _).
  rewrite (stop_joined env' t during _ Arec1 Asole1 Dwork Hdead).
  destruct Asole as [Aqt Asole].
  apply (front_ends_agree_on_final_results env env' s a t (map snd rs)
           schedule); try assumption.
  - unfold AquaVoiceApp.is_alive. rewrite Asole. simpl.
    now rewrite Nat.eqb_refl.
  - now rewrite Hsch.
Qed.

Lemma front_ends_agree_when_injection_succeeds_witness :
  let s := AquaVoice.start_recording all_ok AquaVoice.init in
  let a := AquaVoiceApp.start_recording all_ok AquaVoiceApp.init in
  let rs :=
    [(works, final_event "hello"); (works, final_event "");
     (works, final_event "world")] in
  let steps :=
    [AppThreads.Delivers (payload (final_event "hello"));
     AppThreads.Turn 0 works;
     AppThreads.Delivers (payload (final_event ""));
     AppThreads.Delivers (payload (final_event "world"))] in
  let during := [AppThreads.Turn 0 works; AppThreads.Returns 0] in
  let s2 := AquaVoice.stop_recording clean_stop (Faults.apply_all rs s) in
  let a2 :=
    AppThreads.stop_recording clean_stop during
      (AppThreads.run_steps steps a) in
  AquaVoiceApp.final_text a2 = AquaVoice.final_text s2
  /\ AquaVoiceApp.all_typed a2 = AquaVoice.all_typed s2
  /\ net_typed (issued_since (AquaVoiceApp.world a) (AquaVoiceApp.world a2))
     = net_typed (issued_since (AquaVoice.world s) (AquaVoice.world s2))
  /\ clipboard_writes
       (issued_since (AquaVoiceApp.world a) (AquaVoiceApp.world a2))
     = clipboard_writes
         (issued_since (AquaVoice.world s) (AquaVoice.world s2)).
Proof.
  intros s a rs steps during.
  apply (front_ends_agree_when_injection_succeeds clean_stop clean_stop
           s a 0 rs steps during); try reflexivity.
  split; reflexivity.
Defined.
